(** * Browser Tic-Tac-Toe

    A shallow embedding of the AI move selector ([chooseBestMove] with its
    quick heuristic and its minimax search), of the game-state hook
    ([computeWinner], [makeMove]) and of the audit ring buffer
    ([logEvent], [getAuditLog]), followed by the properties checked
    against them.

    JavaScript data is modelled as follows.
    - A cell is ['X'], ['O'] or [null]: [option Player].  Reading an array
      out of range yields [undefined], which like [null] is falsy and is
      never [===] to a mark, so [read] returns [None] there.
    - A board is an array object.  Arrays live in a [heap] and are passed
      by reference, so that in-place writes ([b[m] = player]) and the copy
      [[...board]] are visible as such.
    - A number is [NaN], an integer, a non-integer or one of the two
      infinities ([jsnum]).  A non-integer is given by the integer below
      it and its fractional part, as an exact fraction.  Sums and
      differences are exact, as they are on doubles whose result fits
      53 binary digits; statements on the value of a sum carry that
      range as a hypothesis ([exact_counters], [short_fraction]).
    - A score is a number other than [NaN] ([jsscore]). *)

From Stdlib Require Import ZArith Lia Bool.
From stdpp Require Import base list relations sorting strings.

(** ** Cells, boards and JavaScript values *)

Inductive Player : Set := X | O.

Abbreviation cell := (option Player).

Abbreviation board := (list cell).

Definition player_eqb (p q : Player) : bool :=
  match p, q with
  | X, X | O, O => true
  | _, _ => false
  end.

(** [player === 'X' ? 'O' : 'X'] *)
Definition other (p : Player) : Player :=
  match p with X => O | O => X end.

(** [Boolean(c)] *)
Definition truthy (c : cell) : bool :=
  match c with Some _ => true | None => false end.

(** [c === d] *)
Definition strict_eq (c d : cell) : bool :=
  match c, d with
  | Some p, Some q => player_eqb p q
  | None, None => true
  | _, _ => false
  end.

(** [b[i]] *)
Definition read (b : board) (i : nat) : cell := default None (b !! i).

(** [b[i] = v]: an assignment past the end extends the array. *)
Definition array_set (b : board) (i : nat) (v : cell) : board :=
  if (i <? length b)%nat then <[i:=v]> b
  else b ++ replicate (i - length b) None ++ [v].

(** [b.every(Boolean)] *)
Definition every_truthy (b : board) : bool := forallb truthy b.

(** [Array(9).fill(null)] *)
Definition empty_board : board := replicate 9 None.

(** A number.  [Num z] is the integer [z]; [Frac z n d] is the
    non-integer [z + n/(n+d)], which lies strictly between [z] and
    [z + 1]: 1.5 is [Frac 1 1 1], 2.25 is [Frac 2 1 3] and -0.5 is
    [Frac (-1) 1 1]. *)
Inductive jsnum : Set :=
| NaN
| Num (z : Z)
| Frac (z : Z) (n d : positive)
| PInfinity
| NInfinity.

(** [n < k] and [n > k] for an integer literal [k]; both are false on [NaN]. *)
Definition js_lt (n : jsnum) (k : Z) : bool :=
  match n with
  | NaN => false
  | Num z => (z <? k)%Z
  | Frac z _ _ => (z <? k)%Z
  | PInfinity => false
  | NInfinity => true
  end.

Definition js_gt (n : jsnum) (k : Z) : bool :=
  match n with
  | NaN => false
  | Num z => (k <? z)%Z
  | Frac z _ _ => (k <=? z)%Z
  | PInfinity => true
  | NInfinity => false
  end.

(** A score: [Fin z] is the integer [z] and [FinFrac z n d] the
    non-integer [z + n/(n+d)]. *)
Inductive jsscore : Set :=
| NegInf
| Fin (z : Z)
| PosInf
| FinFrac (z : Z) (n d : positive).

(** [a < b] on scores; [a > b] is [score_lt b a]. *)
Definition score_lt (a b : jsscore) : bool :=
  match a, b with
  | NegInf, NegInf => false
  | NegInf, _ => true
  | _, NegInf => false
  | PosInf, _ => false
  | _, PosInf => true
  | Fin x, Fin y => (x <? y)%Z
  | Fin x, FinFrac z _ _ => (x <=? z)%Z
  | FinFrac z _ _, Fin y => (z <? y)%Z
  | FinFrac z n d, FinFrac z' n' d' =>
      (z <? z')%Z || ((z =? z')%Z && (n * d' <? n' * d)%positive)
  end.

(** Array objects by address. *)
Abbreviation ref := nat.

Abbreviation heap := (list (list cell)).

Definition heap_read (h : heap) (r : ref) : board := default [] (h !! r).

Definition heap_write (h : heap) (r : ref) (i : nat) (v : cell) : heap :=
  <[r := array_set (heap_read h r) i v]> h.

(** [[...b]]: a fresh array with the same cells. *)
Definition heap_copy (h : heap) (r : ref) : ref * heap :=
  (length h, h ++ [heap_read h r]).

(** What a caller may pass as [board]: an array, or anything else. *)
Inductive jsval : Set := VArray (r : ref) | VOther.

(** ** The audit ring buffer (utils/audit.js) *)

Record Scores : Set := mkScores { scoreX : Z; scoreO : Z; ties : Z }.

Record Snapshot : Set := mkSnapshot {
  snap_board : board;
  snap_player : Player;
  snap_scores : Scores
}.

Inductive Action : Set := START | MOVE | RESET | ERROR.

Module Audit.

(** The event handed to [logEvent].  [reason] and [metadata] are carried
    along unread and are left out. *)
Record Event : Set := mkEvent {
  action : Action;
  before : option Snapshot;
  after : option Snapshot;
  userId : option string;
  timestamp : option string
}.

Record Entry : Set := mkEntry {
  entry_action : Action;
  entry_before : option Snapshot;
  entry_after : option Snapshot;
  entry_userId : string;
  entry_timestamp : string
}.

Definition MAX_LOGS : nat := 100.

(** [arr.slice(-n)] *)
Definition slice_last {A : Type} (n : nat) (arr : list A) : list A :=
  drop (length arr - n) arr.

(** What [localStorage.getItem] and [JSON.parse] can produce at start-up. *)
Inductive Stored : Set :=
| Missing
| Throws
| ParsedArray (arr : list Entry)
| ParsedOther.

(** The initial value of [buffer]. *)
Definition init (s : Stored) : list Entry :=
  match s with
  | ParsedArray arr => slice_last MAX_LOGS arr
  | Missing | Throws | ParsedOther => []
  end.

(** [{ userId: 'anonymous', ...event, timestamp: event.timestamp || ts }] *)
Definition payload (event : Event) (ts : string) : Entry :=
  {| entry_action := action event;
     entry_before := before event;
     entry_after := after event;
     entry_userId := default "anonymous"%string (userId event);
     entry_timestamp :=
       match timestamp event with
       | Some t => if String.eqb t "" then ts else t
       | None => ts
       end |}.

(** [logEvent(event)] at clock reading [ts], as a transition of [buffer]. *)
Definition logEvent (buffer : list Entry) (event : Event) (ts : string)
  : list Entry :=
  let buffer := buffer ++ [payload event ts] in
  if (MAX_LOGS <? length buffer)%nat then slice_last MAX_LOGS buffer
  else buffer.

Definition getAuditLog (buffer : list Entry) : list Entry := buffer.

(** A run of the module: start-up, then one [logEvent] per element. *)
Definition run (s : Stored) (events : list (Event * string)) : list Entry :=
  fold_left (fun buffer e => logEvent buffer e.1 e.2) events (init s).

End Audit.

(** ** The game-state hook (hooks/useTicTacToe.js) *)

Module Hook.

Definition lines : list (nat * nat * nat) :=
  [(0, 1, 2); (3, 4, 5); (6, 7, 8);
   (0, 3, 6); (1, 4, 7); (2, 5, 8);
   (0, 4, 8); (2, 4, 6)].

Fixpoint scan_lines (b : board) (ls : list (nat * nat * nat)) : cell :=
  match ls with
  | [] => None
  | (x, y, z) :: rest =>
      if truthy (read b x) && strict_eq (read b x) (read b y)
         && strict_eq (read b x) (read b z)
      then read b x
      else scan_lines b rest
  end.

Definition computeWinner (b : board) : cell := scan_lines b lines.

Record State : Set := mkState {
  st_board : board;
  currentPlayer : Player;
  winner : cell;
  isDraw : bool;
  scores : Scores
}.

(** [useState] initial values, with the restored or zero scores. *)
Definition initial (s : Scores) : State :=
  mkState empty_board X None false s.

(** What [makeMove] may be called with: a number, or anything else. *)
Inductive jsindex : Set := INum (n : jsnum) | INotNumber.

(** [board[index]] for a number that passed the range test.  A key that
    is not an integer names no element and reads [undefined]. *)
Definition index_read (b : board) (n : jsnum) : cell :=
  match n with
  | Num z => read b (Z.to_nat z)
  | NaN | Frac _ _ _ | PInfinity | NInfinity => None
  end.

(** [nextBoard[index] = v].  A key that is not an integer ([NaN], 2.5)
    names no element: the assignment adds a property and leaves every
    cell as it was. *)
Definition index_set (b : board) (n : jsnum) (v : cell) : board :=
  match n with
  | Num z => array_set b (Z.to_nat z) v
  | NaN | Frac _ _ _ | PInfinity | NInfinity => b
  end.

(** [{ ...prev, [w]: prev[w] + 1 }].  The counters are integers; [+ 1]
    is exact on them below 2^53, the range in which the statements on
    the value of a counter are made. *)
Definition bump (w : Player) (prev : Scores) : Scores :=
  match w with
  | X => mkScores (scoreX prev + 1) (scoreO prev) (ties prev)
  | O => mkScores (scoreX prev) (scoreO prev + 1) (ties prev)
  end.

Definition bump_ties (prev : Scores) : Scores :=
  mkScores (scoreX prev) (scoreO prev) (ties prev + 1).

(** [updateOutcome(nextBoard)]: the new [winner], [isDraw] and [scores]. *)
Definition updateOutcome (nextBoard : board) (prev : Scores)
  : cell * bool * Scores :=
  match computeWinner nextBoard with
  | Some w => (Some w, false, bump w prev)
  | None =>
      if every_truthy nextBoard then (None, true, bump_ties prev)
      else (None, false, prev)
  end.

(** [makeMove(index)] in the render that holds [st]: the returned flag,
    the state of the next render and the events passed to [logEvent]. *)
Definition makeMove (st : State) (index : jsindex)
  : bool * State * list Audit.Event :=
  let before :=
    mkSnapshot (st_board st) (currentPlayer st) (scores st) in
  if truthy (winner st) || isDraw st then (false, st, [])
  else
    match index with
    | INotNumber => (false, st, [])
    | INum n =>
        if js_lt n 0 || js_gt n 8 then (false, st, [])
        else if truthy (index_read (st_board st) n) then (false, st, [])
        else
          let nextBoard :=
            index_set (st_board st) n (Some (currentPlayer st)) in
          let '(w, d, sc) := updateOutcome nextBoard (scores st) in
          let ended := truthy w || d in
          let nextPlayer :=
            if ended then currentPlayer st else other (currentPlayer st) in
          let after := mkSnapshot nextBoard nextPlayer (scores st) in
          (true,
           mkState nextBoard nextPlayer w d sc,
           [Audit.mkEvent MOVE (Some before) (Some after)
              (Some "anonymous"%string) None])
    end.

(** [resetGame(reason)]: the state of the next render and the event
    passed to [logEvent].  Scores are kept. *)
Definition resetGame (st : State) : State * list Audit.Event :=
  let before :=
    mkSnapshot (st_board st) (currentPlayer st) (scores st) in
  let after := mkSnapshot empty_board X (scores st) in
  (mkState empty_board X None false (scores st),
   [Audit.mkEvent RESET (Some before) (Some after)
      (Some "anonymous"%string) None]).

End Hook.

(** ** The AI move selector (utils/ai.js) *)

Module Ai.

Record Result : Set := mkResult { score : jsscore; move : Z }.

Record Opts : Set := mkOpts {
  strategy : string;
  depth : option jsnum;
  computeWinner : board -> cell
}.

(** [for (const i of cells) if (!board[i]) return i;] *)
Fixpoint first_empty (b : board) (cells : list nat) : option nat :=
  match cells with
  | [] => None
  | i :: rest => if negb (truthy (read b i)) then Some i else first_empty b rest
  end.

Definition quickHeuristic (b : board) : Z :=
  let center := 4 in
  let corners := [0; 2; 6; 8] in
  let edges := [1; 3; 5; 7] in
  if negb (truthy (read b center)) then Z.of_nat center
  else
    match first_empty b corners with
    | Some i => Z.of_nat i
    | None =>
        match first_empty b edges with
        | Some i => Z.of_nat i
        | None => (-1)%Z
        end
    end.

(** What [minimax] is started with: a whole number of plies, or the
    non-integer [z + n/(n+d)]. *)
Inductive DepthLeft : Set :=
| Whole (depthLeft : nat)
| Part (z : Z) (n d : positive).

(** [Math.max(1, Math.min(9, maxDepth || 9))].  [NaN] and [0] are falsy
    and give 9; every other number is truthy and is cut to the range
    from 1 to 9, where a non-integer between 1 and 9 stays as it is. *)
Definition clampDepth (maxDepth : jsnum) : DepthLeft :=
  match maxDepth with
  | NaN => Whole 9
  | Num z =>
      Whole (Z.to_nat (Z.max 1 (Z.min 9 (if (z =? 0)%Z then 9 else z))))
  | Frac z n d =>
      if (9 <=? z)%Z then Whole 9
      else if (z <? 1)%Z then Whole 1
      else Part z n d
  | PInfinity => Whole 9
  | NInfinity => Whole 1
  end.

Section Driver.

(** The variables the closures of [minimaxDriver] capture. *)
Variable aiPlayer : Player.
Variable computeWinner : board -> cell.

Definition human : Player :=
  match aiPlayer with X => O | O => X end.

Definition availableMoves (b : board) : list nat :=
  List.filter (fun i => negb (truthy (read b i))) (seq 0 9).

(** [null] is [None]. *)
Definition terminalScore (b : board) (depthLeft : nat) : option Z :=
  let w := computeWinner b in
  if strict_eq w (Some aiPlayer) then Some (10 + Z.of_nat depthLeft)%Z
  else if strict_eq w (Some human) then Some (-10 - Z.of_nat depthLeft)%Z
  else if every_truthy b then Some 0%Z
  else None.

(** The initial [best] of a node. *)
Definition worst (player : Player) : Result :=
  mkResult (if player_eqb player aiPlayer then NegInf else PosInf) (-1).

(** The body of the loop after the recursive call: [best] is replaced
    only by a strictly better child. *)
Definition keep (player : Player) (best res : Result) (m : nat) : Result :=
  if player_eqb player aiPlayer
  then if score_lt (score best) (score res)
       then mkResult (score res) (Z.of_nat m) else best
  else if score_lt (score res) (score best)
       then mkResult (score res) (Z.of_nat m) else best.

(** [minimax(b, player, depthLeft)] on the array at address [b], for a
    whole [depthLeft]: started with an integer between 1 and 9, every
    call passes [depthLeft - 1] down to [0]. *)
Fixpoint minimax (depthLeft : nat) (h : heap) (b : ref) (player : Player)
  : Result * heap :=
  match terminalScore (heap_read h b) depthLeft, depthLeft with
  | Some t, _ => (mkResult (Fin t) (-1), h)
  | None, 0 => (mkResult (Fin 0) (-1), h)
  | None, S depthLeft' =>
      let moves := availableMoves (heap_read h b) in
      fold_left
        (fun (acc : Result * heap) (m : nat) =>
           let h1 := heap_write acc.2 b m (Some player) in
           let res := minimax depthLeft' h1 b (other player) in
           let h2 := heap_write res.2 b m None in
           (keep player acc.1 res.1 m, h2))
        moves (worst player, h)
  end.

(** [terminalScore(b, depthLeft)] for the non-integer [depthLeft]
    [z + n/(n+d)]: [10 + depthLeft] is [(10 + z) + n/(n+d)] and
    [-10 - depthLeft] is [(-11 - z) + d/(n+d)]. *)
Definition terminalScoreFrac (b : board) (z : Z) (n d : positive)
  : option jsscore :=
  let w := computeWinner b in
  if strict_eq w (Some aiPlayer) then Some (FinFrac (10 + z) n d)
  else if strict_eq w (Some human) then Some (FinFrac (-11 - z) d n)
  else if every_truthy b then Some (Fin 0)
  else None.

(** [minimax(b, player, depthLeft)] for the non-integer [depthLeft]
    [z + n/(n+d)].  The test [depthLeft === 0] fails at every ply, so
    only the board ends the recursion: every call marks one of the
    cells 0 to 8 that [availableMoves] found empty, and [cells] counts
    the cells that can still be marked.  With none left a board that is
    not terminal has no move and the loop body does not run. *)
Fixpoint minimaxFrac (cells : nat) (z : Z) (n d : positive) (h : heap)
  (b : ref) (player : Player) : Result * heap :=
  match terminalScoreFrac (heap_read h b) z n d, cells with
  | Some t, _ => (mkResult t (-1), h)
  | None, 0 => (worst player, h)
  | None, S cells' =>
      let moves := availableMoves (heap_read h b) in
      fold_left
        (fun (acc : Result * heap) (m : nat) =>
           let h1 := heap_write acc.2 b m (Some player) in
           let res := minimaxFrac cells' (z - 1) n d h1 b (other player) in
           let h2 := heap_write res.2 b m None in
           (keep player acc.1 res.1 m, h2))
        moves (worst player, h)
  end.

Definition minimaxDriver (h : heap) (board : ref) (maxDepth : jsnum)
  : Z * heap :=
  let '(scratch, h1) := heap_copy h board in
  let result :=
    match clampDepth maxDepth with
    | Whole depthLeft => minimax depthLeft h1 scratch aiPlayer
    | Part z n d => minimaxFrac 9 z n d h1 scratch aiPlayer
    end in
  (move result.1, result.2).

(** The same search read as a function of the board value, every write
    applied to a copy.  [minimax_frame] below shows that [minimax]
    computes it and hands the heap back as it got it. *)
Fixpoint minimax_value (depthLeft : nat) (b : board) (player : Player)
  : Result :=
  match terminalScore b depthLeft, depthLeft with
  | Some t, _ => mkResult (Fin t) (-1)
  | None, 0 => mkResult (Fin 0) (-1)
  | None, S depthLeft' =>
      fold_left
        (fun best m =>
           keep player best
             (minimax_value depthLeft' (<[m:=Some player]> b) (other player)) m)
        (availableMoves b) (worst player)
  end.

(** The search for a non-integer [depthLeft] read in the same way. *)
Fixpoint minimaxFrac_value (cells : nat) (z : Z) (n d : positive)
  (b : board) (player : Player) : Result :=
  match terminalScoreFrac b z n d, cells with
  | Some t, _ => mkResult t (-1)
  | None, 0 => worst player
  | None, S cells' =>
      fold_left
        (fun best m =>
           keep player best
             (minimaxFrac_value cells' (z - 1) n d (<[m:=Some player]> b)
                (other player)) m)
        (availableMoves b) (worst player)
  end.

End Driver.

Definition chooseBestMove (h : heap) (board : jsval) (aiPlayer : Player)
  (opts : Opts) : Z * heap :=
  let depth := default (Num 9) (depth opts) in
  match board with
  | VOther => ((-1)%Z, h)
  | VArray r =>
      if negb (length (heap_read h r) =? 9)%nat then ((-1)%Z, h)
      else if String.eqb (strategy opts) "quick"
           then (quickHeuristic (heap_read h r), h)
           else minimaxDriver aiPlayer (computeWinner opts) h r depth
  end.

End Ai.

(** ** Guarded actions (utils/errors.js) *)

Module Errors.

(** [AppError]: [name] is always ['AppError'] and [meta] is left
    undefined by [safeGuard]. *)
Record AppError : Set := mkAppError {
  err_type : string;
  err_message : string
}.

(** What running [fn()] does: it returns a value or throws, and it may
    log on the way. *)
Inductive Completion (T E : Type) : Type :=
| Returns (v : T)
| Throws (err : E).

Arguments Returns {T E} v.
Arguments Throws {T E} err.

(** [safeGuard(fn, friendlyMessage = 'Something went wrong')] at clock
    reading [ts]: what the caller gets ([inr] is a thrown [AppError]) and
    the audit buffer afterwards.  The thrown value's [message], [stack]
    and [name] go into the [metadata] of the logged event only. *)
Definition safeGuard {T E : Type}
  (fn : list Audit.Entry -> Completion T E * list Audit.Entry)
  (friendlyMessage : option string)
  (buffer : list Audit.Entry) (ts : string)
  : (T + AppError) * list Audit.Entry :=
  match fn buffer with
  | (Returns v, buffer') => (inl v, buffer')
  | (Throws _, buffer') =>
      (inr (mkAppError "unexpected"
              (default "Something went wrong"%string friendlyMessage)),
       Audit.logEvent buffer'
         (Audit.mkEvent ERROR None None (Some "anonymous"%string) None) ts)
  end.

End Errors.

(** ** Keyboard navigation of the grid (components/Board.js) *)

Module BoardUi.

(** [rc(index)]: 1-based row and column. *)
Definition rc (index : nat) : nat * nat :=
  (index / 3 + 1, index mod 3 + 1).

Inductive Key : Set :=
| ArrowUp | ArrowDown | ArrowLeft | ArrowRight | Enter | Space | OtherKey.

(** What the handler does besides [preventDefault]: it focuses the
    element of a square, calls [onPlay], or does nothing. *)
Inductive Effect : Set :=
| Focus (i : nat)
| Play (index : jsnum)
| NoEffect.

(** [const ref = squaresRefs.current[nextIndex];
     if (ref && ref.current) ref.current.focus();]
    [squaresRefs.current] holds the ref objects of the squares 0..8, and
    [current i] tells whether the ref of square [i] holds an element.
    A ref holds one only once a component has attached it. *)
Definition focus (current : nat -> bool) (nextIndex : Z) : Effect :=
  if (0 <=? nextIndex)%Z && (nextIndex <? 9)%Z
     && current (Z.to_nat nextIndex)
  then Focus (Z.to_nat nextIndex) else NoEffect.

(** [handleKeyDown(e)], where [idxAttr] is the [data-index] attribute of
    the target after [parseInt] ([None] when the attribute is absent). *)
Definition handleKeyDown (current : nat -> bool) (disabled : bool)
  (idxAttr : option jsnum) (key : Key) : Effect :=
  let currentIndex := default (Num (-1)) idxAttr in
  match currentIndex with
  | Num z =>
      if (z <? 0)%Z then NoEffect
      else
        let row := (z / 3)%Z in
        let col := (z mod 3)%Z in
        match key with
        | ArrowUp => focus current (if (0 <=? row - 1)%Z then z - 3 else z)%Z
        | ArrowDown => focus current (if (row + 1 <=? 2)%Z then z + 3 else z)%Z
        | ArrowLeft => focus current (if (0 <=? col - 1)%Z then z - 1 else z)%Z
        | ArrowRight => focus current (if (col + 1 <=? 2)%Z then z + 1 else z)%Z
        | Enter | Space => if negb disabled then Play (Num z) else NoEffect
        | OtherKey => NoEffect
        end
  | NInfinity => NoEffect
  | NaN | Frac _ _ _ | PInfinity =>
      (* [nextIndex] is [NaN], a non-integer or [Infinity]: no index of
         [squaresRefs.current] *)
      if js_lt currentIndex 0 then NoEffect
      else
        match key with
        | Enter | Space => if negb disabled then Play currentIndex else NoEffect
        | _ => NoEffect
        end
  end.

End BoardUi.

(** ** The hook with the AI opponent (the later version of
    hooks/useTicTacToe.js) *)

Module HookAi.

Inductive Mode : Set := HUMAN_VS_HUMAN | HUMAN_VS_AI.

Record Difficulty : Set := mkDifficulty {
  d_strategy : string;
  d_depth : option jsnum
}.

(** What the closures of one render capture. *)
Record Render : Set := mkRender {
  state : Hook.State;
  mode : Mode;
  aiPlaysAs : Player;
  difficulty : Difficulty
}.

(** The state setters a call invokes.  All but the score setters store
    the value they are given; the score setters bump the committed
    scores. *)
Inductive Update : Set :=
| SetBoard (b : board)
| SetCurrentPlayer (p : Player)
| SetWinner (w : cell)
| SetIsDraw (d : bool)
| BumpScore (w : Player)
| BumpTies
| SetIsAiThinking (t : bool).

(** The committed state, with [isAiThinking]. *)
Definition Committed : Set := Hook.State * bool.

Definition commit1 (c : Committed) (u : Update) : Committed :=
  let '(st, thinking) := c in
  match u with
  | SetBoard b =>
      (Hook.mkState b (Hook.currentPlayer st) (Hook.winner st)
         (Hook.isDraw st) (Hook.scores st), thinking)
  | SetCurrentPlayer p =>
      (Hook.mkState (Hook.st_board st) p (Hook.winner st)
         (Hook.isDraw st) (Hook.scores st), thinking)
  | SetWinner w =>
      (Hook.mkState (Hook.st_board st) (Hook.currentPlayer st) w
         (Hook.isDraw st) (Hook.scores st), thinking)
  | SetIsDraw d =>
      (Hook.mkState (Hook.st_board st) (Hook.currentPlayer st)
         (Hook.winner st) d (Hook.scores st), thinking)
  | BumpScore w =>
      (Hook.mkState (Hook.st_board st) (Hook.currentPlayer st)
         (Hook.winner st) (Hook.isDraw st) (Hook.bump w (Hook.scores st)),
       thinking)
  | BumpTies =>
      (Hook.mkState (Hook.st_board st) (Hook.currentPlayer st)
         (Hook.winner st) (Hook.isDraw st) (Hook.bump_ties (Hook.scores st)),
       thinking)
  | SetIsAiThinking t => (st, t)
  end.

Definition commit (c : Committed) (us : list Update) : Committed :=
  fold_left commit1 us c.

(** [updateOutcome(nextBoard)]: the setters it calls and what it
    returns. *)
Definition updateOutcome (nextBoard : board) : list Update * (cell * bool) :=
  match Hook.computeWinner nextBoard with
  | Some w => ([SetWinner (Some w); SetIsDraw false; BumpScore w],
               (Some w, false))
  | None =>
      if every_truthy nextBoard
      then ([SetIsDraw true; SetWinner None; BumpTies], (None, true))
      else ([SetWinner None; SetIsDraw false], (None, false))
  end.

(** [makeMove(index, opts)] as created in render [env]: the flag, the
    setters called, the events logged, and the board captured by the
    timer it starts, if any. *)
Definition makeMove (env : Render) (index : Hook.jsindex)
  : bool * list Update * list Audit.Event * option board :=
  let st := state env in
  let before :=
    mkSnapshot (Hook.st_board st) (Hook.currentPlayer st) (Hook.scores st) in
  if truthy (Hook.winner st) || Hook.isDraw st then (false, [], [], None)
  else
    match index with
    | Hook.INotNumber => (false, [], [], None)
    | Hook.INum n =>
        if js_lt n 0 || js_gt n 8 then (false, [], [], None)
        else if truthy (Hook.index_read (Hook.st_board st) n)
        then (false, [], [], None)
        else
          let nextBoard :=
            Hook.index_set (Hook.st_board st) n
              (Some (Hook.currentPlayer st)) in
          let '(ups, (w, d)) := updateOutcome nextBoard in
          let ended := truthy w || d in
          let nextPlayer :=
            if ended then Hook.currentPlayer st
            else other (Hook.currentPlayer st) in
          let after := mkSnapshot nextBoard nextPlayer (Hook.scores st) in
          let scheduled :=
            negb ended &&
            match mode env with HUMAN_VS_AI => true | HUMAN_VS_HUMAN => false end
            && player_eqb nextPlayer (aiPlaysAs env) in
          (true,
           [SetBoard nextBoard] ++ ups ++
           (if ended then [] else [SetCurrentPlayer nextPlayer]) ++
           (if scheduled then [SetIsAiThinking true] else []),
           [Audit.mkEvent MOVE (Some before) (Some after)
              (Some "anonymous"%string) None],
           if scheduled then Some nextBoard else None)
    end.

(** The options of the timer's call: [difficulty?.strategy || 'quick']
    and [difficulty?.depth ?? 9]. *)
Definition timerOpts (d : Difficulty) : Ai.Opts :=
  Ai.mkOpts
    (if String.eqb (d_strategy d) "" then "quick"%string else d_strategy d)
    (Some (default (Num 9) (d_depth d)))
    Hook.computeWinner.

(** The timer callback started by [makeMove] of render [env] on
    [nextBoard].  The [makeMove] it calls is the one of the scope it was
    written in, that of render [env]. *)
Definition timer (env : Render) (nextBoard : board)
  : list Update * list Audit.Event * option board :=
  let idx :=
    (Ai.chooseBestMove [nextBoard] (VArray 0) (aiPlaysAs env)
       (timerOpts (difficulty env))).1 in
  if (0 <=? idx)%Z then
    let '(_, ups, events, next) := makeMove env (Hook.INum (Num idx)) in
    (ups ++ [SetIsAiThinking false], events, next)
  else ([SetIsAiThinking false], [], None).

End HookAi.

(** ** Notions used in the statements *)

(** [better ai p old new]: the comparison under which the loop of a node
    with [p] to move replaces its [best] ([>] when [p] is the AI side,
    [<] otherwise). *)
Definition better (aiPlayer p : Player) (old new : jsscore) : bool :=
  if player_eqb p aiPlayer then score_lt old new else score_lt new old.

(** [i] is the first empty cell in the scan order [cells]. *)
Definition first_in_order (b : board) (cells : list nat) (i : nat) : Prop :=
  exists pre post,
    cells = pre ++ i :: post /\ read b i = None /\
    forall j, j ∈ pre -> read b j ≠ None.

(** Boards used as concrete inputs. *)

(** X has completed the top row; cells 5 to 8 are empty. *)
Definition won_board : board :=
  [Some X; Some X; Some X; Some O; Some O; None; None; None; None].

(** O threatens to complete the middle row at cell 5. *)
Definition threat_board : board :=
  [None; None; None; Some O; Some O; None; Some X; None; None].

Definition full_board : board :=
  [Some X; Some O; Some X; Some X; Some X; Some O; Some O; Some X; Some O].

(** X cannot win at once, but wins three plies ahead through cell 3. *)
Definition fork_board : board :=
  [Some X; Some O; None; None; Some X; None; None; None; Some O].

(** The options the hook passes: its own [computeWinner] is injected. *)
Definition hookOpts (strategy : string) (depth : option jsnum) : Ai.Opts :=
  Ai.mkOpts strategy depth Hook.computeWinner.

(** The depth limit that the amended claim C3 gives for a supplied
    depth: 9 for an unset depth, [NaN], 0 and every number above 9; 1
    for every other number below 1; the number itself for an integer
    from 1 to 9; and 9, the whole board, for a non-integer between 1
    and 9, which never stops the search. *)
Definition effective_limit (depth : option jsnum) : nat :=
  match depth with
  | None => 9
  | Some NaN => 9
  | Some PInfinity => 9
  | Some NInfinity => 1
  | Some (Num z) =>
      if (z =? 0)%Z then 9
      else if (z <? 1)%Z then 1
      else if (9 <? z)%Z then 9
      else Z.to_nat z
  | Some (Frac z _ _) => if (z <? 1)%Z then 1 else 9
  end.

(** [within n b b']: [b'] is [b] after at most [n] further marks, each
    on a cell 0..8 that was empty. *)
Inductive within : nat -> board -> board -> Prop :=
| within_here n b : within n b b
| within_mark n b m p b' :
    m < 9 -> read b m = None ->
    within n (<[m:=Some p]> b) b' -> within (S n) b b'.

(** The score that a search with [z + n/(n+d)] plies left gives to an
    outcome to which a search with [z - c] plies left gives the score
    [a]: [10 + plies] and [-10 - plies] move with the plies left, the
    draw and the infinities stay. *)
Definition lift_score (c : Z) (n d : positive) (a : jsscore) : jsscore :=
  match a with
  | Fin s =>
      if (0 <? s)%Z then FinFrac (s + c) n d
      else if (s <? 0)%Z then FinFrac (s - 1 - c) d n
      else Fin 0
  | _ => a
  end.

Definition lift (c : Z) (n d : positive) (res : Ai.Result) : Ai.Result :=
  Ai.mkResult (lift_score c n d (Ai.score res)) (Ai.move res).

(** The scores met while a search for a whole depth runs: an infinity
    before any child is seen, the draw 0, or a win or a loss, 10 or
    more in size. *)
Definition outcome_score (a : jsscore) : Prop :=
  match a with
  | Fin s => (s = 0 \/ 10 <= s \/ s <= -10)%Z
  | FinFrac _ _ _ => False
  | NegInf | PosInf => True
  end.

(** A fractional part [n/(n+d)] of at most 48 binary digits.  With it
    every number of size below 32 that the search computes, a depth
    left or a score, is a double, and its sums and differences are
    exact. *)
Definition short_fraction (n d : positive) : Prop :=
  exists k, k <= 48 /\ Z.pos (n + d) = (2 ^ Z.of_nat k)%Z.

(** The array the start-up code found in storage, if any. *)
Definition restored (s : Audit.Stored) : list Audit.Entry :=
  match s with
  | Audit.ParsedArray arr => arr
  | _ => []
  end.

(** ** A game of the AI against an arbitrary opponent *)

(** The game is finished: a line is complete or no cell is empty. *)
Definition game_over (b : board) : bool :=
  truthy (Hook.computeWinner b) || every_truthy b.

(** The options of the AI side in such a game: minimax at depth 9. *)
Definition fullDepth : Ai.Opts := hookOpts "minimax" (Some (Num 9)).

(** One move of a game in which [ai] plays what [chooseBestMove] answers
    on the current board (stored anywhere in any heap) and the opponent
    marks any empty cell.  A position is a board and the side to move. *)
Inductive step (ai : Player) : board * Player -> board * Player -> Prop :=
| step_ai b h r m h' :
    game_over b = false ->
    heap_read h r = b ->
    Ai.chooseBestMove h (VArray r) ai fullDepth = (Z.of_nat m, h') ->
    step ai (b, ai) (array_set b m (Some ai), other ai)
| step_opponent b m :
    game_over b = false ->
    m < 9 -> read b m = None ->
    step ai (b, other ai) (array_set b m (Some (other ai)), ai).

(** Positions of games that start from the empty board, either side
    moving first. *)
Definition reachable (ai : Player) (pos : board * Player) : Prop :=
  exists first, rtc (step ai) (empty_board, first) pos.

(** [a >= 0] on scores. *)
Definition score_nonneg (a : jsscore) : bool := negb (score_lt a (Fin 0)).

(** A yardstick for the search, not part of the program: and-or search,
    [n] plies deep, for the AI side [ai] avoiding defeat from board [b]
    with [p] to move.  Some move of the AI side, and every move of the
    opponent, must lead to a position that holds.  A position cut off at
    [n = 0] counts as holding, like the draw estimate of the search. *)
Fixpoint holds (n : nat) (ai : Player) (b : board) (p : Player) : bool :=
  match Hook.computeWinner b with
  | Some w => player_eqb w ai
  | None =>
      if every_truthy b then true
      else
        match n with
        | 0 => true
        | S n' =>
            if player_eqb p ai
            then existsb (fun m => holds n' ai (<[m:=Some p]> b) (other p))
                   (Ai.availableMoves b)
            else forallb (fun m => holds n' ai (<[m:=Some p]> b) (other p))
                   (Ai.availableMoves b)
        end
  end.

(** ** Notions used in the further statements *)

(** O threatens to complete the top row at cell 2; X cannot win at
    once. *)
Definition block_board : board :=
  [Some O; Some O; None; Some X; None; None; None; None; None].

(** The three cells of line [l] carry the mark of [p]. *)
Definition complete (b : board) (p : Player) (l : nat * nat * nat) : Prop :=
  read b l.1.1 = Some p /\ read b l.1.2 = Some p /\ read b l.2 = Some p.

(** The board with the two marks exchanged. *)
Definition swap_marks (b : board) : board := map (option_map other) b.

(** How many cells carry the mark of [p]. *)
Definition count_mark (p : Player) (b : board) : nat :=
  length (List.filter (fun c => strict_eq c (Some p)) b).

(** A user action on the hook, handled by the current render. *)
Inductive Call : Set :=
| CallMove (index : Hook.jsindex)
| CallReset.

Definition call (st : Hook.State) (c : Call) : Hook.State * list Audit.Event :=
  match c with
  | CallMove index =>
      ((Hook.makeMove st index).1.2, (Hook.makeMove st index).2)
  | CallReset => Hook.resetGame st
  end.

(** The state after a sequence of actions, each handled by the render
    that follows the previous one, and the events logged on the way. *)
Definition session (st : Hook.State) (calls : list Call)
  : Hook.State * list Audit.Event :=
  fold_left
    (fun acc c => ((call acc.1 c).1, acc.2 ++ (call acc.1 c).2))
    calls (st, []).


Definition game_ended (st : Hook.State) : bool :=
  truthy (Hook.winner st) || Hook.isDraw st.

(** The fields of the state agree with each other: [winner] and [isDraw]
    describe the board, X has as many marks as O or one more, and the
    turn matches the marks. *)
Definition consistent (st : Hook.State) : Prop :=
  length (Hook.st_board st) = 9 /\
  Hook.winner st = Hook.computeWinner (Hook.st_board st) /\
  Hook.isDraw st =
    negb (truthy (Hook.computeWinner (Hook.st_board st))) &&
    every_truthy (Hook.st_board st) /\
  count_mark X (Hook.st_board st) =
    count_mark O (Hook.st_board st) +
    (if player_eqb (Hook.currentPlayer st) X
     then (if game_ended st then 1 else 0)
     else (if game_ended st then 0 else 1)).

Definition total (s : Scores) : Z := (scoreX s + scoreO s + ties s)%Z.

(** An index that passes the range test of [makeMove] and names no
    cell: [NaN], or a non-integer between 0 and 8. *)
Definition names_no_cell (index : Hook.jsindex) : bool :=
  match index with
  | Hook.INum NaN => true
  | Hook.INum (Frac z _ _) => (0 <=? z)%Z && (z <? 8)%Z
  | _ => false
  end.

(** Counters on which [+ 1] is exact: integers of size below 2^53
    ([Number.isSafeInteger]). *)
Definition exact_counters (s : Scores) : Prop :=
  (Z.abs (scoreX s) < 2 ^ 53)%Z /\
  (Z.abs (scoreO s) < 2 ^ 53)%Z /\
  (Z.abs (ties s) < 2 ^ 53)%Z.

(** * Properties *)

(** ** The definitions on concrete inputs *)

Example computeWinner_row : Hook.computeWinner won_board = Some X.
Proof. reflexivity. Qed.

Example computeWinner_none : Hook.computeWinner full_board = None.
Proof. reflexivity. Qed.

Example quick_takes_centre :
  (Ai.chooseBestMove [empty_board] (VArray 0) O (hookOpts "quick" None)).1
  = 4%Z.
Proof. reflexivity. Qed.

(** The AI takes the winning cell. *)
Example minimax_wins :
  (Ai.chooseBestMove
     [[Some X; Some X; None; None; Some O; None; None; Some O; None]]
     (VArray 0) X (hookOpts "minimax" None)).1 = 2%Z.
Proof. vm_compute. reflexivity. Qed.

(** The AI blocks the opponent's line. *)
Example minimax_blocks :
  (Ai.chooseBestMove
     [[Some O; Some O; None; Some X; None; None; None; None; None]]
     (VArray 0) X (hookOpts "minimax" None)).1 = 2%Z.
Proof. vm_compute. reflexivity. Qed.

Example makeMove_centre :
  (Hook.makeMove (Hook.initial (mkScores 0 0 0)) (Hook.INum (Num 4))).1
  = (true,
     Hook.mkState (<[4:=Some X]> empty_board) O None false (mkScores 0 0 0)).
Proof. reflexivity. Qed.

(** The index 2.5 passes the range test and marks no cell. *)
Example makeMove_fraction :
  (Hook.makeMove (Hook.initial (mkScores 0 0 0))
     (Hook.INum (Frac 2 1 1))).1
  = (true, Hook.mkState empty_board O None false (mkScores 0 0 0)).
Proof. reflexivity. Qed.

(** With the depth 1.5 the search is not stopped after one ply: it finds
    the win three plies ahead and scores it [10 + 1.5 - 3], where the
    depth 1 takes the first empty cell. *)
Example minimax_fraction :
  (Ai.minimaxFrac X Hook.computeWinner 9 1 1 1 [fork_board] 0 X).1
    = Ai.mkResult (FinFrac 8 1 1) 3 /\
  (Ai.chooseBestMove [fork_board] (VArray 0) X
     (hookOpts "minimax" (Some (Frac 1 1 1)))).1 = 3%Z /\
  (Ai.chooseBestMove [fork_board] (VArray 0) X
     (hookOpts "minimax" (Some (Num 1)))).1 = 2%Z.
Proof. vm_compute. done. Qed.

(** ** Arrays and the heap *)

Lemma array_set_in_range (b : board) i v :
  i < length b -> array_set b i v = <[i:=v]> b.
Proof.
  intros Hi. unfold array_set.
  destruct (Nat.ltb_spec i (length b)); [done | lia].
Qed.

Lemma read_insert_eq (b : board) i v : i < length b -> read (<[i:=v]> b) i = v.
Proof. intros Hi. unfold read. by rewrite list_lookup_insert_eq. Qed.

Lemma read_insert_ne (b : board) i j v : i ≠ j -> read (<[i:=v]> b) j = read b j.
Proof. intros Hij. unfold read. by rewrite list_lookup_insert_ne. Qed.

Lemma read_None_lookup (b : board) i :
  i < length b -> read b i = None -> b !! i = Some None.
Proof.
  unfold read. intros Hi Hr.
  destruct (b !! i) as [c|] eqn:Hc; simpl in Hr.
  - by subst.
  - apply lookup_ge_None in Hc. lia.
Qed.

Lemma heap_read_write (h : heap) r i v :
  r < length h -> heap_read (heap_write h r i v) r = array_set (heap_read h r) i v.
Proof.
  intros Hr. unfold heap_write, heap_read at 1.
  by rewrite list_lookup_insert_eq.
Qed.

Lemma length_heap_write (h : heap) r i v : length (heap_write h r i v) = length h.
Proof. unfold heap_write. apply length_insert. Qed.

(** Placing a mark on an empty cell and retracting it gives the heap back. *)
Lemma heap_write_retract (h : heap) r m v :
  r < length h -> m < length (heap_read h r) -> read (heap_read h r) m = None ->
  heap_write (heap_write h r m v) r m None = h.
Proof.
  intros Hr Hm Hcell. unfold heap_write at 1.
  rewrite heap_read_write by done.
  unfold heap_write. rewrite list_insert_insert_eq.
  rewrite (array_set_in_range (heap_read h r)) by done.
  rewrite array_set_in_range by (rewrite length_insert; done).
  rewrite list_insert_insert_eq.
  rewrite (list_insert_id (heap_read h r)) by (by apply read_None_lookup).
  apply list_insert_id. unfold heap_read.
  destruct (h !! r) as [b|] eqn:Hb; [done|]. apply lookup_ge_None in Hb. lia.
Qed.

Lemma heap_read_copy_new (h : heap) r :
  heap_read (heap_copy h r).2 (heap_copy h r).1 = heap_read h r.
Proof.
  unfold heap_copy. simpl. unfold heap_read at 1.
  by rewrite list_lookup_middle.
Qed.

(** ** Scores *)

(** Fractions are compared by cross-multiplication. *)
Lemma cross_le_le (a b c d e f : Z) :
  (0 < b -> 0 < d -> 0 < f ->
   a * d <= c * b -> c * f <= e * d -> a * f <= e * b)%Z.
Proof.
  intros Hb Hd Hf H1 H2.
  apply (Z.mul_le_mono_pos_r _ _ d); [lia |].
  assert (a * d * f <= c * b * f)%Z by (apply Z.mul_le_mono_nonneg_r; lia).
  assert (c * f * b <= e * d * b)%Z by (apply Z.mul_le_mono_nonneg_r; lia).
  lia.
Qed.

Lemma cross_lt_le (a b c d e f : Z) :
  (0 < b -> 0 < d -> 0 < f ->
   a * d < c * b -> c * f <= e * d -> a * f < e * b)%Z.
Proof.
  intros Hb Hd Hf H1 H2.
  apply (Z.mul_lt_mono_pos_r d); [lia |].
  assert (a * d * f < c * b * f)%Z by (apply Z.mul_lt_mono_pos_r; lia).
  assert (c * f * b <= e * d * b)%Z by (apply Z.mul_le_mono_nonneg_r; lia).
  lia.
Qed.

Lemma cross_le_lt (a b c d e f : Z) :
  (0 < b -> 0 < d -> 0 < f ->
   a * d <= c * b -> c * f < e * d -> a * f < e * b)%Z.
Proof.
  intros Hb Hd Hf H1 H2.
  apply (Z.mul_lt_mono_pos_r d); [lia |].
  assert (a * d * f <= c * b * f)%Z by (apply Z.mul_le_mono_nonneg_r; lia).
  assert (c * f * b < e * d * b)%Z by (apply Z.mul_lt_mono_pos_r; lia).
  lia.
Qed.

(** [score_lt] on two non-integers, as a proposition. *)
Lemma frac_lt_iff z n d z' n' d' :
  score_lt (FinFrac z n d) (FinFrac z' n' d') = true <->
  (z < z' \/ (z = z' /\ Z.pos n * Z.pos d' < Z.pos n' * Z.pos d))%Z.
Proof.
  simpl. rewrite orb_true_iff, andb_true_iff, Z.ltb_lt, Z.eqb_eq, Pos.ltb_lt.
  lia.
Qed.

Lemma frac_nlt_iff z n d z' n' d' :
  score_lt (FinFrac z n d) (FinFrac z' n' d') = false <->
  (z' < z \/ (z = z' /\ Z.pos n' * Z.pos d <= Z.pos n * Z.pos d'))%Z.
Proof.
  rewrite <- not_true_iff_false, frac_lt_iff. lia.
Qed.

Ltac score_props :=
  rewrite ?frac_lt_iff, ?frac_nlt_iff in *; cbn [score_lt] in *;
  rewrite ?Z.ltb_lt, ?Z.ltb_ge, ?Z.leb_le, ?Z.leb_gt in *.

Lemma score_lt_irrefl a : score_lt a a = false.
Proof. destruct a; try done; score_props; lia. Qed.

Lemma score_lt_trans a b c :
  score_lt a b = true -> score_lt b c = true -> score_lt a c = true.
Proof.
  destruct a as [|x| |x n1 d1], b as [|y| |y n2 d2], c as [|z| |z n3 d3];
    try done; intros H1 H2; score_props; try lia.
  destruct H1 as [H1 | [-> H1]], H2 as [H2 | [-> H2]]; try lia.
  right. split; [done |].
  apply (cross_lt_le _ _ (Z.pos n2) (Z.pos d2)); lia.
Qed.

Lemma score_nlt_lt a b c :
  score_lt a b = false -> score_lt a c = true -> score_lt b c = true.
Proof.
  destruct a as [|x| |x n1 d1], b as [|y| |y n2 d2], c as [|z| |z n3 d3];
    try done; intros H1 H2; score_props; try lia.
  destruct H1 as [H1 | [-> H1]], H2 as [H2 | [-> H2]]; try lia.
  right. split; [done |].
  apply (cross_le_lt _ _ (Z.pos n1) (Z.pos d1)); lia.
Qed.

Lemma score_lt_nlt a b c :
  score_lt c a = true -> score_lt b a = false -> score_lt c b = true.
Proof.
  destruct a as [|x| |x n1 d1], b as [|y| |y n2 d2], c as [|z| |z n3 d3];
    try done; intros H1 H2; score_props; try lia.
  destruct H1 as [H1 | [-> H1]], H2 as [H2 | [-> H2]]; try lia.
  right. split; [done |].
  apply (cross_lt_le _ _ (Z.pos n1) (Z.pos d1)); lia.
Qed.

Lemma score_nlt_trans a b c :
  score_lt a b = false -> score_lt b c = false -> score_lt a c = false.
Proof.
  destruct a as [|x| |x n1 d1], b as [|y| |y n2 d2], c as [|z| |z n3 d3];
    try done; intros H1 H2; score_props; try lia.
  destruct H1 as [H1 | [-> H1]], H2 as [H2 | [-> H2]]; try lia.
  right. split; [done |].
  apply (cross_le_le _ _ (Z.pos n2) (Z.pos d2)); lia.
Qed.

(** ** The search *)

Section Search.

Variable aiPlayer : Player.
Variable cw : board -> cell.

#[local] Abbreviation availableMoves := Ai.availableMoves.
#[local] Abbreviation terminalScore := (Ai.terminalScore aiPlayer cw).
#[local] Abbreviation keep := (Ai.keep aiPlayer).
#[local] Abbreviation worst := (Ai.worst aiPlayer).
#[local] Abbreviation minimax := (Ai.minimax aiPlayer cw).
#[local] Abbreviation minimax_value := (Ai.minimax_value aiPlayer cw).

Lemma elem_of_availableMoves (b : board) m :
  m ∈ availableMoves b <-> m < 9 /\ read b m = None.
Proof.
  unfold Ai.availableMoves.
  rewrite list_elem_of_In, filter_In, in_seq, negb_true_iff.
  destruct (read b m); simpl; split; intros [? ?]; (done || (split; [lia | done])).
Qed.

Lemma filter_seq_sorted (f : nat -> bool) n a :
  StronglySorted lt (List.filter f (seq a n)).
Proof.
  revert a. induction n as [|n IH]; intros a; simpl; [constructor |].
  destruct (f a); [| apply IH].
  constructor; [apply IH |].
  apply Forall_forall. intros x Hx.
  apply list_elem_of_In, filter_In in Hx as [Hx _].
  apply in_seq in Hx. lia.
Qed.

Lemma availableMoves_sorted (b : board) : StronglySorted lt (availableMoves b).
Proof. apply filter_seq_sorted. Qed.

(** In an ascending enumeration the elements below [m] are those seen
    before [m]. *)
Lemma sorted_before l1 (m : nat) l2 m' :
  StronglySorted lt (l1 ++ m :: l2) -> m' ∈ l1 ++ m :: l2 -> m' < m -> m' ∈ l1.
Proof.
  intros Hs Hin Hlt.
  apply elem_of_app in Hin as [Hin | Hin]; [done |].
  apply StronglySorted_app_1_r, StronglySorted_cons in Hs as [Hall _].
  apply elem_of_cons in Hin as [-> | Hin]; [lia |].
  rewrite Forall_forall in Hall. specialize (Hall _ Hin). lia.
Qed.

Lemma every_truthy_false (b : board) :
  every_truthy b = false -> exists i, i < length b /\ read b i = None.
Proof.
  unfold every_truthy. induction b as [|c b IH]; simpl; [done |].
  destruct c as [p|]; simpl.
  - intros H. destruct (IH H) as (i & Hi & Hr). exists (S i). split; [lia | done].
  - intros _. exists 0. split; [lia | done].
Qed.

Lemma every_truthy_true (b : board) i :
  every_truthy b = true -> i < length b -> truthy (read b i) = true.
Proof.
  unfold every_truthy. rewrite forallb_forall. intros Hall Hi.
  unfold read. destruct (b !! i) as [c|] eqn:Hc.
  - apply Hall, list_elem_of_In, list_elem_of_lookup. eauto.
  - apply lookup_ge_None in Hc. lia.
Qed.

Lemma nonterminal_has_move (b : board) d :
  length b = 9 -> terminalScore b d = None -> exists m, m ∈ availableMoves b.
Proof.
  intros Hlen. unfold Ai.terminalScore.
  destruct (strict_eq _ _); [done |].
  destruct (strict_eq _ _); [done |].
  destruct (every_truthy b) eqn:Hfull; [done |]. intros _.
  destruct (every_truthy_false b Hfull) as (i & Hi & Hr).
  exists i. apply elem_of_availableMoves. split; [lia | done].
Qed.

Lemma minimax_unfold d h r p :
  minimax d h r p =
  match terminalScore (heap_read h r) d, d with
  | Some t, _ => (Ai.mkResult (Fin t) (-1), h)
  | None, 0 => (Ai.mkResult (Fin 0) (-1), h)
  | None, S d' =>
      fold_left
        (fun (acc : Ai.Result * heap) (m : nat) =>
           let h1 := heap_write acc.2 r m (Some p) in
           let res := minimax d' h1 r (other p) in
           (keep p acc.1 res.1 m, heap_write res.2 r m None))
        (availableMoves (heap_read h r)) (worst p, h)
  end.
Proof. destruct d; reflexivity. Qed.

Lemma minimax_value_unfold d b p :
  minimax_value d b p =
  match terminalScore b d, d with
  | Some t, _ => Ai.mkResult (Fin t) (-1)
  | None, 0 => Ai.mkResult (Fin 0) (-1)
  | None, S d' =>
      fold_left
        (fun best m =>
           keep p best (minimax_value d' (<[m:=Some p]> b) (other p)) m)
        (availableMoves b) (worst p)
  end.
Proof. destruct d; reflexivity. Qed.

(** Backtracking: the search returns the heap it was given, and its
    result is that of the search on board values. *)
Lemma minimax_frame d : forall h r p,
  r < length h -> length (heap_read h r) = 9 ->
  minimax d h r p = (minimax_value d (heap_read h r) p, h).
Proof.
  induction d as [|d IH]; intros h r p Hr Hlen;
    rewrite minimax_unfold, minimax_value_unfold;
    destruct (terminalScore (heap_read h r) _); try reflexivity.
  set (b := heap_read h r) in *.
  assert (Hmoves : Forall (fun m => m < 9 /\ read b m = None) (availableMoves b)).
  { apply Forall_forall. intros m. apply elem_of_availableMoves. }
  generalize (worst p) as best.
  induction Hmoves as [|m ms [Hm Hcell] _ IHms]; intros best; simpl; [done |].
  assert (Hrd : heap_read (heap_write h r m (Some p)) r = <[m:=Some p]> b).
  { rewrite heap_read_write by done. apply array_set_in_range. fold b. lia. }
  rewrite IH; simpl.
  - rewrite Hrd, heap_write_retract by (done || (fold b; lia)). apply IHms.
  - by rewrite length_heap_write.
  - rewrite Hrd, length_insert. done.
Qed.

#[local] Abbreviation better := (better aiPlayer).

Lemma keep_better p best res m :
  keep p best res m =
  if better p (Ai.score best) (Ai.score res)
  then Ai.mkResult (Ai.score res) (Z.of_nat m) else best.
Proof. unfold Ai.keep, better. by destruct (player_eqb p aiPlayer). Qed.

Lemma better_trans p a b c :
  better p a b = true -> better p b c = true -> better p a c = true.
Proof.
  unfold better. destruct (player_eqb p aiPlayer); eauto using score_lt_trans.
Qed.

Lemma not_better_then_better p a b c :
  better p a b = false -> better p a c = true -> better p b c = true.
Proof.
  unfold better.
  destruct (player_eqb p aiPlayer); eauto using score_nlt_lt, score_lt_nlt.
Qed.

Lemma better_worst p z : better p (Ai.score (worst p)) (Fin z) = true.
Proof. unfold better, Ai.worst. by destruct (player_eqb p aiPlayer). Qed.

(** The loop of a node over the children [child m], started at [init]:
    either no child beat [init], or the result is the first child that
    no other child beats. *)
Lemma pick_spec p (child : nat -> Ai.Result) ms : forall init,
  let pick := fold_left (fun best m => keep p best (child m) m) ms init in
  (pick = init /\
   forall m, m ∈ ms -> better p (Ai.score init) (Ai.score (child m)) = false)
  \/
  (exists l1 m l2,
     ms = l1 ++ m :: l2 /\
     pick = Ai.mkResult (Ai.score (child m)) (Z.of_nat m) /\
     better p (Ai.score init) (Ai.score (child m)) = true /\
     (forall m', m' ∈ l1 ->
        better p (Ai.score (child m')) (Ai.score (child m)) = true) /\
     (forall m', m' ∈ l2 ->
        better p (Ai.score (child m)) (Ai.score (child m')) = false)).
Proof.
  induction ms as [|m ms IH]; intros init; simpl.
  - left. split; [done |]. intros m Hm. by apply elem_of_nil in Hm.
  - rewrite keep_better.
    destruct (better p (Ai.score init) (Ai.score (child m))) eqn:Hb.
    + right.
      destruct (IH (Ai.mkResult (Ai.score (child m)) (Z.of_nat m)))
        as [[Heq Hall] | (l1 & m2 & l2 & Hms & Heq & Hb2 & Hl1 & Hl2)];
        simpl in *.
      * exists [], m, ms. repeat split; try done.
        intros m' Hm'. by apply elem_of_nil in Hm'.
      * exists (m :: l1), m2, l2. split; [by rewrite Hms |]. repeat split; try done.
        -- eauto using better_trans.
        -- intros m' Hm'. apply elem_of_cons in Hm' as [-> | Hm']; auto.
    + destruct (IH init)
        as [[Heq Hall] | (l1 & m2 & l2 & Hms & Heq & Hb2 & Hl1 & Hl2)].
      * left. split; [done |].
        intros m' Hm'. apply elem_of_cons in Hm' as [-> | Hm']; auto.
      * right. exists (m :: l1), m2, l2. split; [by rewrite Hms |]. repeat split; try done.
        intros m' Hm'. apply elem_of_cons in Hm' as [-> | Hm']; auto.
        eauto using not_better_then_better.
Qed.

(** Every search result carries a finite score. *)
Lemma minimax_value_finite d : forall b p,
  length b = 9 -> exists z, Ai.score (minimax_value d b p) = Fin z.
Proof.
  induction d as [|d IH]; intros b p Hlen; rewrite minimax_value_unfold;
    destruct (terminalScore b _) eqn:Ht; simpl; eauto.
  destruct (nonterminal_has_move b _ Hlen Ht) as [m0 Hm0].
  assert (Hfin : forall m, exists z,
            Ai.score (minimax_value d (<[m:=Some p]> b) (other p)) = Fin z).
  { intros m. apply IH. by rewrite length_insert. }
  pose proof (pick_spec p
    (fun m => minimax_value d (<[m:=Some p]> b) (other p))
    (availableMoves b) (worst p)) as Hpick.
  cbv beta zeta in Hpick.
  destruct Hpick as [[_ Hall] | (l1 & m & l2 & _ & -> & _)]; simpl;
    [| apply Hfin].
  specialize (Hall _ Hm0). destruct (Hfin m0) as [z Hz].
  rewrite Hz, better_worst in Hall. done.
Qed.

(** A node that is searched further returns the first of its best
    children. *)
Lemma minimax_value_node d b p :
  length b = 9 -> terminalScore b (S d) = None ->
  let child m := minimax_value d (<[m:=Some p]> b) (other p) in
  exists l1 m l2,
    availableMoves b = l1 ++ m :: l2 /\
    minimax_value (S d) b p = Ai.mkResult (Ai.score (child m)) (Z.of_nat m) /\
    (forall m', m' ∈ l1 ->
       better p (Ai.score (child m')) (Ai.score (child m)) = true) /\
    (forall m', m' ∈ l2 ->
       better p (Ai.score (child m)) (Ai.score (child m')) = false).
Proof.
  intros Hlen Ht. cbv zeta. rewrite minimax_value_unfold, Ht.
  destruct (nonterminal_has_move b _ Hlen Ht) as [m0 Hm0].
  pose proof (pick_spec p
    (fun m => minimax_value d (<[m:=Some p]> b) (other p))
    (availableMoves b) (worst p)) as Hpick.
  cbv beta zeta in Hpick.
  destruct Hpick as [[_ Hall] | (l1 & m & l2 & Hms & Heq & _ & Hl1 & Hl2)].
  - specialize (Hall _ Hm0).
    destruct (minimax_value_finite d (<[m0:=Some p]> b) (other p)) as [z Hz];
      [by rewrite length_insert |].
    rewrite Hz, better_worst in Hall. done.
  - exists l1, m, l2. done.
Qed.

Lemma score_lt_asym a b : score_lt a b = true -> score_lt b a = false.
Proof.
  destruct a, b; try done; intros H; score_props; lia.
Qed.

Lemma better_asym p a b : better p a b = true -> better p b a = false.
Proof.
  unfold better. destruct (player_eqb p aiPlayer); apply score_lt_asym.
Qed.

Lemma better_irrefl p a : better p a a = false.
Proof.
  unfold better. destruct (player_eqb p aiPlayer); apply score_lt_irrefl.
Qed.

(** The same node, by index: the child returned is beaten by no child
    and strictly beats every child of lower index. *)
Lemma minimax_value_best d b p :
  length b = 9 -> terminalScore b (S d) = None ->
  let child m := Ai.score (minimax_value d (<[m:=Some p]> b) (other p)) in
  exists m,
    m ∈ availableMoves b /\
    minimax_value (S d) b p = Ai.mkResult (child m) (Z.of_nat m) /\
    (forall m', m' ∈ availableMoves b -> better p (child m) (child m') = false) /\
    (forall m', m' ∈ availableMoves b -> m' < m ->
       better p (child m') (child m) = true).
Proof.
  intros Hlen Ht. cbv zeta.
  destruct (minimax_value_node d b p Hlen Ht)
    as (l1 & m & l2 & Hms & Heq & Hl1 & Hl2).
  pose proof (availableMoves_sorted b) as Hsorted. rewrite Hms in Hsorted.
  exists m. rewrite Hms. split; [set_solver |]. split; [done |]. split.
  - intros m' Hm'. apply elem_of_app in Hm' as [Hm' | Hm'].
    + apply better_asym. auto.
    + apply elem_of_cons in Hm' as [-> | Hm']; [apply better_irrefl | auto].
  - intros m' Hm' Hlt. apply Hl1. by apply (sorted_before l1 m l2).
Qed.

End Search.

(** ** The search with a non-integer depth *)

Lemma strict_eq_true (c d : cell) : strict_eq c d = true <-> c = d.
Proof.
  destruct c as [[]|], d as [[]|]; simpl; split; (done || congruence).
Qed.

Lemma strict_eq_Some_iff (c : cell) p : strict_eq c (Some p) = true <-> c = Some p.
Proof. apply strict_eq_true. Qed.

Lemma human_other ai : Ai.human ai = other ai.
Proof. by destruct ai. Qed.

Lemma other_neq p : other p ≠ p.
Proof. by destruct p. Qed.

(** The score of a search on board values: its range, and the boards on
    which the extreme values occur. *)
Lemma minimax_value_range ai cw d : forall b p,
  length b = 9 ->
  exists z,
    Ai.score (Ai.minimax_value ai cw d b p) = Fin z /\
    (z = 0 \/ 10 <= z <= 10 + Z.of_nat d \/ -10 - Z.of_nat d <= z <= -10)%Z /\
    (z = 10 + Z.of_nat d -> cw b = Some ai)%Z /\
    (z = -10 - Z.of_nat d -> cw b = Some (other ai))%Z.
Proof.
  induction d as [|d IH]; intros b p Hlen; rewrite minimax_value_unfold;
    unfold Ai.terminalScore at 1; rewrite human_other;
    destruct (strict_eq (cw b) (Some ai)) eqn:Hai;
    try (apply strict_eq_Some_iff in Hai; eexists; split; [reflexivity |];
         repeat split; (done || lia));
    destruct (strict_eq (cw b) (Some (other ai))) eqn:Hhu;
    try (apply strict_eq_Some_iff in Hhu; eexists; split; [reflexivity |];
         repeat split; (done || lia));
    destruct (every_truthy b) eqn:Hfull;
    try (exists 0%Z; split; [reflexivity |]; repeat split; lia).
  assert (Ht : Ai.terminalScore ai cw b (S d) = None).
  { unfold Ai.terminalScore. rewrite human_other. by rewrite Hai, Hhu, Hfull. }
  destruct (minimax_value_best ai cw d b p Hlen Ht) as (m & _ & Heq & _).
  pose proof (minimax_value_unfold ai cw (S d) b p) as Hun.
  rewrite Ht in Hun. rewrite <- Hun, Heq. cbn [Ai.score].
  destruct (IH (<[m:=Some p]> b) (other p)) as (z & -> & Hz & _);
    [by rewrite length_insert |].
  exists z. split; [done |]. repeat split; lia.
Qed.

Lemma minimaxFrac_unfold ai cw cells z n d h r p :
  Ai.minimaxFrac ai cw cells z n d h r p =
  match Ai.terminalScoreFrac ai cw (heap_read h r) z n d, cells with
  | Some t, _ => (Ai.mkResult t (-1), h)
  | None, 0 => (Ai.worst ai p, h)
  | None, S cells' =>
      fold_left
        (fun (acc : Ai.Result * heap) (m : nat) =>
           let h1 := heap_write acc.2 r m (Some p) in
           let res := Ai.minimaxFrac ai cw cells' (z - 1) n d h1 r (other p) in
           (Ai.keep ai p acc.1 res.1 m, heap_write res.2 r m None))
        (Ai.availableMoves (heap_read h r)) (Ai.worst ai p, h)
  end.
Proof. destruct cells; reflexivity. Qed.

Lemma minimaxFrac_value_unfold ai cw cells z n d b p :
  Ai.minimaxFrac_value ai cw cells z n d b p =
  match Ai.terminalScoreFrac ai cw b z n d, cells with
  | Some t, _ => Ai.mkResult t (-1)
  | None, 0 => Ai.worst ai p
  | None, S cells' =>
      fold_left
        (fun best m =>
           Ai.keep ai p best
             (Ai.minimaxFrac_value ai cw cells' (z - 1) n d
                (<[m:=Some p]> b) (other p)) m)
        (Ai.availableMoves b) (Ai.worst ai p)
  end.
Proof. destruct cells; reflexivity. Qed.

(** Backtracking, as for a whole depth. *)
Lemma minimaxFrac_frame ai cw n d cells : forall z h r p,
  r < length h -> length (heap_read h r) = 9 ->
  Ai.minimaxFrac ai cw cells z n d h r p =
  (Ai.minimaxFrac_value ai cw cells z n d (heap_read h r) p, h).
Proof.
  induction cells as [|cells IH]; intros z h r p Hr Hlen;
    rewrite minimaxFrac_unfold, minimaxFrac_value_unfold;
    destruct (Ai.terminalScoreFrac ai cw (heap_read h r) _ _ _);
    try reflexivity.
  set (b := heap_read h r) in *.
  assert (Hmoves :
    Forall (fun m => m < 9 /\ read b m = None) (Ai.availableMoves b)).
  { apply Forall_forall. intros m. apply elem_of_availableMoves. }
  generalize (Ai.worst ai p) as best.
  induction Hmoves as [|m ms [Hm Hcell] _ IHms]; intros best; simpl; [done |].
  assert (Hrd : heap_read (heap_write h r m (Some p)) r = <[m:=Some p]> b).
  { rewrite heap_read_write by done. apply array_set_in_range. fold b. lia. }
  rewrite IH; simpl.
  - rewrite Hrd, heap_write_retract by (done || (fold b; lia)). apply IHms.
  - by rewrite length_heap_write.
  - rewrite Hrd, length_insert. done.
Qed.

(** Moving the scores onto the non-integer scale keeps their order. *)
Lemma score_lt_lift c n d a b :
  (0 <= 10 + c)%Z -> outcome_score a -> outcome_score b ->
  score_lt (lift_score c n d a) (lift_score c n d b) = score_lt a b.
Proof.
  intros Hc Ha Hb.
  destruct a as [|s| |], b as [|s'| |]; try done; unfold lift_score;
    simpl in Ha, Hb;
    repeat match goal with
           | |- context [(?x <? ?y)%Z] => destruct (Z.ltb_spec x y)
           end;
    try done; try lia; cbn [score_lt];
    apply eq_true_iff_eq; score_props;
    rewrite ?orb_true_iff, ?andb_true_iff, ?Z.ltb_lt, ?Z.eqb_eq, ?Pos.ltb_lt;
    lia.
Qed.

Lemma filter_length_le {A} (f g : A -> bool) l :
  (forall y, y ∈ l -> g y = true -> f y = true) ->
  length (List.filter g l) <= length (List.filter f l).
Proof.
  induction l as [|y l IH]; intros Hgf; simpl; [done |].
  assert (IH' : length (List.filter g l) <= length (List.filter f l)).
  { apply IH. intros z Hz. apply Hgf. set_solver. }
  destruct (g y) eqn:Hg.
  - rewrite (Hgf y) by (done || set_solver). simpl. lia.
  - destruct (f y); simpl; lia.
Qed.

Lemma filter_length_lt {A} (f g : A -> bool) l x :
  (forall y, y ∈ l -> g y = true -> f y = true) ->
  x ∈ l -> f x = true -> g x = false ->
  length (List.filter g l) < length (List.filter f l).
Proof.
  induction l as [|y l IH]; intros Hgf Hx Hfx Hgx; [inversion Hx |].
  assert (Hle : length (List.filter g l) <= length (List.filter f l)).
  { apply filter_length_le. intros z Hz. apply Hgf. by right. }
  simpl. apply elem_of_cons in Hx. destruct Hx as [Heq | Hx].
  - subst y. rewrite Hfx, Hgx. simpl. lia.
  - assert (IH' : length (List.filter g l) < length (List.filter f l)).
    { apply IH; try done. intros z Hz. apply Hgf. by right. }
    destruct (g y) eqn:Hg.
    + rewrite (Hgf y) by (done || set_solver). simpl. lia.
    + destruct (f y); simpl; lia.
Qed.

(** A move leaves fewer moves. *)
Lemma availableMoves_insert (b : board) m p :
  length b = 9 -> m ∈ Ai.availableMoves b ->
  length (Ai.availableMoves (<[m:=Some p]> b)) < length (Ai.availableMoves b).
Proof.
  intros Hlen Hm. pose proof Hm as Hm'.
  apply elem_of_availableMoves in Hm' as [Hlt Hcell].
  unfold Ai.availableMoves. apply filter_length_lt with (x := m).
  - intros y _. destruct (decide (m = y)) as [<- | Hne].
    + rewrite read_insert_eq by lia. done.
    + by rewrite read_insert_ne.
  - apply list_elem_of_In, in_seq. lia.
  - by rewrite Hcell.
  - rewrite read_insert_eq by lia. done.
Qed.


Lemma outcome_score_lift_worst ai p c n d :
  lift c n d (Ai.worst ai p) = Ai.worst ai p /\
  outcome_score (Ai.score (Ai.worst ai p)).
Proof. unfold Ai.worst, lift. by destruct (player_eqb p ai). Qed.

Lemma keep_lift ai p c n d best res m :
  (0 <= 10 + c)%Z ->
  outcome_score (Ai.score best) -> outcome_score (Ai.score res) ->
  Ai.keep ai p (lift c n d best) (lift c n d res) m =
    lift c n d (Ai.keep ai p best res m) /\
  outcome_score (Ai.score (Ai.keep ai p best res m)).
Proof.
  intros Hc Hbest Hres. rewrite !keep_better. unfold better. cbn [lift Ai.score].
  rewrite !score_lt_lift by done.
  destruct (if player_eqb p ai
            then score_lt (Ai.score best) (Ai.score res)
            else score_lt (Ai.score res) (Ai.score best)); done.
Qed.

(** The loop of a node on the two scales. *)
Lemma pick_lift ai p c n d (childF child : nat -> Ai.Result) ms :
  (0 <= 10 + c)%Z ->
  (forall m, m ∈ ms ->
     childF m = lift c n d (child m) /\ outcome_score (Ai.score (child m))) ->
  forall init, outcome_score (Ai.score init) ->
    fold_left (fun best m => Ai.keep ai p best (childF m) m) ms
      (lift c n d init) =
    lift c n d (fold_left (fun best m => Ai.keep ai p best (child m) m) ms init).
Proof.
  intros Hc. induction ms as [|m ms IH]; intros Hch init Hinit; [done |].
  cbn [fold_left]. destruct (Hch m) as [-> Hm]; [by left |].
  destruct (keep_lift ai p c n d init (child m) m Hc Hinit Hm) as [-> Hkeep].
  apply IH; [| done]. intros m' Hm'. apply Hch. by right.
Qed.

Lemma terminalScoreFrac_lift ai cw (b : board) z n d j :
  (0 <= 10 + (z - Z.of_nat j))%Z ->
  Ai.terminalScoreFrac ai cw b z n d =
  option_map (fun t => lift_score (z - Z.of_nat j) n d (Fin t))
    (Ai.terminalScore ai cw b j).
Proof.
  intros Hz. unfold Ai.terminalScoreFrac, Ai.terminalScore, lift_score.
  destruct (strict_eq (cw b) (Some ai)); cbn [option_map].
  { destruct (Z.ltb_spec 0 (10 + Z.of_nat j)); [| lia]. do 2 f_equal. lia. }
  destruct (strict_eq (cw b) (Some (Ai.human ai))); cbn [option_map].
  { destruct (Z.ltb_spec 0 (-10 - Z.of_nat j)); [lia |].
    destruct (Z.ltb_spec (-10 - Z.of_nat j) 0); [| lia]. do 2 f_equal. lia. }
  by destruct (every_truthy b).
Qed.

(** With at least as many cells to count down as the board has empty
    ones, the search for the non-integer [z + n/(n+d)] returns the move
    of the search for the whole depth [j], and the score of the same
    outcome. *)
Lemma minimaxFrac_value_lift ai cw n d j : forall z b p,
  length b = 9 -> length (Ai.availableMoves b) <= j ->
  (0 <= 10 + (z - Z.of_nat j))%Z ->
  Ai.minimaxFrac_value ai cw j z n d b p =
  lift (z - Z.of_nat j) n d (Ai.minimax_value ai cw j b p).
Proof.
  induction j as [|j IH]; intros z b p Hlen Hcells Hz;
    rewrite minimaxFrac_value_unfold, minimax_value_unfold;
    rewrite (terminalScoreFrac_lift ai cw b z n d _ Hz);
    destruct (Ai.terminalScore ai cw b _) as [t|] eqn:Ht;
    cbn [option_map]; try reflexivity.
  - destruct (nonterminal_has_move ai cw b _ Hlen Ht) as [m Hm].
    destruct (Ai.availableMoves b); [by apply elem_of_nil in Hm | simpl in *; lia].
  - destruct (outcome_score_lift_worst ai p (z - Z.of_nat (S j)) n d)
      as [Hworst Hrange].
    rewrite <- Hworst at 1. apply pick_lift; [done | | done].
    intros m Hm. split.
    + rewrite IH.
      * f_equal. lia.
      * by rewrite length_insert.
      * pose proof (availableMoves_insert b m p Hlen Hm). lia.
      * lia.
    + destruct (minimax_value_range ai cw j (<[m:=Some p]> b) (other p))
        as (s & -> & Hs & _); [by rewrite length_insert |].
      simpl. lia.
Qed.

Lemma fold_left_ext_in {A B} (f g : A -> B -> A) l :
  (forall a x, x ∈ l -> f a x = g a x) ->
  forall a, fold_left f l a = fold_left g l a.
Proof.
  induction l as [|x l IH]; intros Hfg a; [done |].
  cbn [fold_left]. rewrite Hfg by (by left).
  apply IH. intros a' x' Hx'. apply Hfg. by right.
Qed.

(** The count of cells does not matter once it covers the empty
    cells: the count 9 of the driver is enough on every board. *)
Lemma minimaxFrac_value_cells ai cw n d j : forall j' z b p,
  length b = 9 ->
  length (Ai.availableMoves b) <= j -> length (Ai.availableMoves b) <= j' ->
  Ai.minimaxFrac_value ai cw j z n d b p =
  Ai.minimaxFrac_value ai cw j' z n d b p.
Proof.
  induction j as [|j IH]; intros j' z b p Hlen Hj Hj';
    rewrite !minimaxFrac_value_unfold;
    destruct (Ai.terminalScoreFrac ai cw b z n d) eqn:Ht; try reflexivity.
  - destruct (Ai.availableMoves b) eqn:Hms; [| simpl in *; lia].
    by destruct j'.
  - destruct j' as [|j'].
    { destruct (Ai.availableMoves b) eqn:Hms; [done | simpl in *; lia]. }
    assert (Hch : forall m, m ∈ Ai.availableMoves b ->
      Ai.minimaxFrac_value ai cw j (z - 1) n d (<[m:=Some p]> b) (other p) =
      Ai.minimaxFrac_value ai cw j' (z - 1) n d (<[m:=Some p]> b) (other p)).
    { intros m Hm. pose proof (availableMoves_insert b m p Hlen Hm).
      apply IH; [by rewrite length_insert | lia | lia]. }
    apply fold_left_ext_in. intros best m Hm. by rewrite Hch.
Qed.

(** ** The facade and the driver *)

(** The clamp gives a whole limit from 1 to 9, or leaves a non-integer
    between 1 and 9; [effective_limit] names the plies searched. *)
Lemma clampDepth_limit depth :
  match Ai.clampDepth (default (Num 9) depth) with
  | Ai.Whole k => k = effective_limit depth
  | Ai.Part z n d => effective_limit depth = 9 /\ (1 <= z <= 8)%Z
  end.
Proof.
  destruct depth as [[|z|z n d| |]|]; try reflexivity; simpl.
  - destruct (Z.eqb_spec z 0); [reflexivity |].
    destruct (Z.ltb_spec z 1); [f_equal; lia |].
    destruct (Z.ltb_spec 9 z); f_equal; lia.
  - destruct (Z.leb_spec 9 z); [by destruct (Z.ltb_spec z 1); [lia |] |].
    destruct (Z.ltb_spec z 1); [done | split; [done | lia]].
Qed.

Lemma effective_limit_range depth : 1 <= effective_limit depth <= 9.
Proof.
  destruct depth as [[|z|z n d| |]|]; simpl; try lia.
  - destruct (Z.eqb_spec z 0); [lia |].
    destruct (Z.ltb_spec z 1); [lia |]. destruct (Z.ltb_spec 9 z); lia.
  - destruct (Z.ltb_spec z 1); lia.
Qed.

Lemma effective_limit_succ depth : exists n, effective_limit depth = S n.
Proof.
  pose proof (effective_limit_range depth) as Hd.
  exists (effective_limit depth - 1). lia.
Qed.

Lemma availableMoves_bound (b : board) : length (Ai.availableMoves b) <= 9.
Proof.
  unfold Ai.availableMoves.
  etrans; [apply (filter_length_le (fun _ => true)); done |].
  rewrite forallb_filter_id by done. by rewrite length_seq.
Qed.

(** On a 9-cell array the facade returns the move of the search on board
    values with the limit [effective_limit]; the quick path leaves the
    heap alone, the minimax path adds the scratch copy, back in its
    initial state. *)
Lemma chooseBestMove_array h r ai opts :
  length (heap_read h r) = 9 ->
  Ai.chooseBestMove h (VArray r) ai opts =
  if String.eqb (Ai.strategy opts) "quick"
  then (Ai.quickHeuristic (heap_read h r), h)
  else (Ai.move
          (Ai.minimax_value ai (Ai.computeWinner opts)
             (effective_limit (Ai.depth opts)) (heap_read h r) ai),
        h ++ [heap_read h r]).
Proof.
  intros Hlen. unfold Ai.chooseBestMove. rewrite Hlen. simpl.
  destruct (String.eqb _ _); [done |].
  unfold Ai.minimaxDriver.
  pose proof (heap_read_copy_new h r) as Hnew. unfold heap_copy in *.
  simpl in Hnew. cbv zeta.
  pose proof (clampDepth_limit (Ai.depth opts)) as Hlimit.
  destruct (Ai.clampDepth _) as [k | z n d].
  - subst k. rewrite minimax_frame; simpl.
    + by rewrite Hnew.
    + rewrite length_app. simpl. lia.
    + by rewrite Hnew.
  - destruct Hlimit as [-> Hz].
    rewrite minimaxFrac_frame;
      [| rewrite length_app; simpl; lia | by rewrite Hnew].
    cbn [fst snd]. rewrite Hnew.
    rewrite (minimaxFrac_value_lift ai (Ai.computeWinner opts) n d 9);
      [done | done | apply availableMoves_bound | lia].
Qed.

Lemma chooseBestMove_not_board h board ai opts :
  (forall r, board = VArray r -> length (heap_read h r) ≠ 9) ->
  Ai.chooseBestMove h board ai opts = ((-1)%Z, h).
Proof.
  intros Hbad. unfold Ai.chooseBestMove. destruct board as [r |]; [| done].
  specialize (Hbad r eq_refl).
  destruct (Nat.eqb_spec (length (heap_read h r)) 9); done.
Qed.

(** ** The quick heuristic *)

Lemma first_empty_Some b cells i :
  Ai.first_empty b cells = Some i <-> first_in_order b cells i.
Proof.
  unfold first_in_order. induction cells as [|c cells IH]; simpl.
  - split; [done |]. intros (pre & post & Heq & _). by destruct pre.
  - destruct (read b c) as [p|] eqn:Hc; simpl.
    + rewrite IH. split.
      * intros (pre & post & -> & Hi & Hpre). exists (c :: pre), post.
        repeat split; try done.
        intros j Hj. apply elem_of_cons in Hj as [-> | Hj]; [congruence | auto].
      * intros (pre & post & Heq & Hi & Hpre).
        destruct pre as [|c' pre]; simplify_eq/=.
        exists pre, post. repeat split; try done.
        intros j Hj. apply Hpre. by right.
    + split.
      * intros [= <-]. exists [], cells. repeat split; try done.
        intros j Hj. by apply elem_of_nil in Hj.
      * intros (pre & post & Heq & Hi & Hpre).
        destruct pre as [|c' pre]; simplify_eq/=; [done |].
        exfalso. apply (Hpre c'); [by left | done].
Qed.

Lemma first_empty_None b cells :
  Ai.first_empty b cells = None <-> forall j, j ∈ cells -> read b j ≠ None.
Proof.
  induction cells as [|c cells IH]; simpl.
  - split; [| done]. intros _ j Hj. by apply elem_of_nil in Hj.
  - destruct (read b c) as [p|] eqn:Hc; simpl.
    + rewrite IH. split.
      * intros H j Hj. apply elem_of_cons in Hj as [-> | Hj]; [congruence | auto].
      * intros H j Hj. apply H. by right.
    + split; [done |]. intros H. exfalso. apply (H c); [by left | done].
Qed.

(** The heuristic names an empty cell, or [-1] when cells 0 to 8 are all
    marked. *)
Lemma quickHeuristic_cases b :
  (exists i, Ai.quickHeuristic b = Z.of_nat i /\ i < 9 /\ read b i = None) \/
  (Ai.quickHeuristic b = (-1)%Z /\ forall i, i < 9 -> read b i ≠ None).
Proof.
  unfold Ai.quickHeuristic. cbv zeta.
  destruct (read b 4) as [p4|] eqn:H4; cbn [truthy negb];
    [| left; exists 4; repeat split; (done || lia)].
  destruct (Ai.first_empty b [0; 2; 6; 8]) as [i|] eqn:Hc.
  { left. apply first_empty_Some in Hc as (pre & post & Heq & Hi & _).
    exists i. repeat split; try done.
    assert (Hin : i ∈ [0; 2; 6; 8]) by (rewrite Heq; set_solver).
    set_unfold in Hin. lia. }
  destruct (Ai.first_empty b [1; 3; 5; 7]) as [i|] eqn:He.
  { left. apply first_empty_Some in He as (pre & post & Heq & Hi & _).
    exists i. repeat split; try done.
    assert (Hin : i ∈ [1; 3; 5; 7]) by (rewrite Heq; set_solver).
    set_unfold in Hin. lia. }
  right. split; [done |]. intros i Hi.
  rewrite first_empty_None in Hc, He.
  assert (Hcases : i = 4 \/ i ∈ [0; 2; 6; 8] \/ i ∈ [1; 3; 5; 7]).
  { set_unfold. lia. }
  destruct Hcases as [-> | [Hin | Hin]]; [congruence | auto | auto].
Qed.

Lemma has_empty_not_full (b : board) i :
  i < length b -> read b i = None -> every_truthy b = false.
Proof.
  intros Hi Hr. destruct (every_truthy b) eqn:Hfull; [| done].
  pose proof (every_truthy_true b i Hfull Hi) as Ht. by rewrite Hr in Ht.
Qed.

Lemma all_marked_full (b : board) :
  (forall i, i < length b -> read b i ≠ None) -> every_truthy b = true.
Proof.
  intros Hall. destruct (every_truthy b) eqn:Hfull; [done |].
  destruct (every_truthy_false b Hfull) as (i & Hi & Hr). by destruct (Hall i Hi).
Qed.

Lemma terminalScore_open ai cw (b : board) d i :
  cw b = None -> i < length b -> read b i = None ->
  Ai.terminalScore ai cw b d = None.
Proof.
  intros Hw Hi Hr. unfold Ai.terminalScore. rewrite Hw. simpl.
  by rewrite (has_empty_not_full b i).
Qed.

Lemma terminalScore_full ai cw (b : board) d :
  every_truthy b = true -> exists t, Ai.terminalScore ai cw b d = Some t.
Proof.
  intros Hfull. unfold Ai.terminalScore. rewrite Hfull.
  destruct (strict_eq _ _); [eauto |]. destruct (strict_eq _ _); eauto.
Qed.

(** On a 9-cell board that has an empty cell, the facade names an empty
    cell, unless it runs the search on a board with a complete line. *)
Lemma chooseBestMove_picks_empty h r ai opts :
  length (heap_read h r) = 9 ->
  (exists i, i < 9 /\ read (heap_read h r) i = None) ->
  Ai.strategy opts = "quick"%string \/
    Ai.computeWinner opts (heap_read h r) = None ->
  exists i,
    (Ai.chooseBestMove h (VArray r) ai opts).1 = Z.of_nat i /\
    i < 9 /\ read (heap_read h r) i = None.
Proof.
  intros Hlen (i0 & Hi0 & Hr0) Hcase. rewrite chooseBestMove_array by done.
  destruct (String.eqb_spec (Ai.strategy opts) "quick") as [Hq | Hq]; simpl.
  - destruct (quickHeuristic_cases (heap_read h r))
      as [Hmove | [_ Hfull]]; [done |].
    by destruct (Hfull i0 Hi0).
  - destruct Hcase as [Hs | Hw]; [done |].
    destruct (effective_limit_succ (Ai.depth opts)) as [d ->].
    assert (Ht : Ai.terminalScore ai (Ai.computeWinner opts)
                   (heap_read h r) (S d) = None).
    { apply (terminalScore_open _ _ _ _ i0); (done || lia). }
    destruct (minimax_value_node ai (Ai.computeWinner opts) d
                (heap_read h r) ai Hlen Ht)
      as (l1 & m & l2 & Hms & -> & _).
    exists m. simpl. split; [done |].
    apply elem_of_availableMoves. rewrite Hms. set_solver.
Qed.

(** ** C2: the chosen move is an empty cell *)

(** C2 as stated fails: on a board where a line is already complete the
    minimax path answers [-1] although cells are empty. *)
Lemma C2_counterexample :
  length won_board = 9 /\ read won_board 5 = None /\
  (Ai.chooseBestMove [won_board] (VArray 0) O
     (hookOpts "minimax" (Some (Num 9)))).1 = (-1)%Z.
Proof. vm_compute. done. Qed.

(** C2 (amended): for every 9-cell board with at least one empty cell,
    every AI side, every strategy and every depth, [chooseBestMove]
    returns the index of an empty cell of the input board, provided the
    strategy is 'quick' or the injected [computeWinner] reports no winner
    on the input board. *)
Theorem C2_move_is_empty_cell h r ai opts :
  length (heap_read h r) = 9 ->
  (exists i, i < 9 /\ read (heap_read h r) i = None) ->
  Ai.strategy opts = "quick"%string \/
    Ai.computeWinner opts (heap_read h r) = None ->
  exists i,
    (Ai.chooseBestMove h (VArray r) ai opts).1 = Z.of_nat i /\
    i < 9 /\ read (heap_read h r) i = None.
Proof.
  apply chooseBestMove_picks_empty.
Qed.

Lemma C2_witness :
  exists i,
    (Ai.chooseBestMove [threat_board] (VArray 0) X
       (hookOpts "minimax" (Some (Num 9)))).1 = Z.of_nat i /\
    i < 9 /\ read threat_board i = None.
Proof.
  apply (C2_move_is_empty_cell [threat_board] 0 X
           (hookOpts "minimax" (Some (Num 9)))).
  - reflexivity.
  - exists 0. split; [lia | reflexivity].
  - right. reflexivity.
Defined.

(** ** C3: the effective depth limit *)

(** C3 as stated fails at depth [0]: [0 || 9] is [9], so the search runs
    at full depth and blocks at cell 5, where depth 1 answers cell 0. *)
Lemma C3_counterexample :
  (0 < 1)%Z /\
  (Ai.chooseBestMove [threat_board] (VArray 0) X
     (hookOpts "minimax" (Some (Num 0)))).1 = 5%Z /\
  (Ai.chooseBestMove [threat_board] (VArray 0) X
     (hookOpts "minimax" (Some (Num 1)))).1 = 0%Z.
Proof. vm_compute. done. Qed.

(** The search with limit [n] consults the winner test only on boards at
    most [n] marks away. *)
Lemma minimax_value_local ai cw cw' n : forall b p,
  (forall b', within n b b' -> cw' b' = cw b') ->
  Ai.minimax_value ai cw' n b p = Ai.minimax_value ai cw n b p.
Proof.
  induction n as [|n IH]; intros b p Hcw; rewrite !minimax_value_unfold;
    unfold Ai.terminalScore; rewrite (Hcw b (within_here _ b));
    destruct (strict_eq (cw b) (Some ai)); try reflexivity;
    destruct (strict_eq (cw b) (Some (Ai.human ai))); try reflexivity;
    destruct (every_truthy b); try reflexivity.
  apply fold_left_ext_in. intros best m Hm.
  apply elem_of_availableMoves in Hm as [Hm Hcell].
  rewrite IH; [done |]. intros b' Hb'. apply Hcw. by eapply within_mark.
Qed.

Lemma effective_limit_whole depth :
  effective_limit (Some (Num (Z.of_nat (effective_limit depth)))) =
  effective_limit depth.
Proof.
  pose proof (effective_limit_range depth) as Hr.
  generalize dependent (effective_limit depth). intros k Hk. simpl.
  destruct (Z.eqb_spec (Z.of_nat k) 0); [lia |].
  destruct (Z.ltb_spec (Z.of_nat k) 1); [lia |].
  destruct (Z.ltb_spec 9 (Z.of_nat k)); lia.
Qed.

(** C3 (amended): for every caller-supplied depth, a number or unset,
    the search runs with a depth limit in [1,9]: a depth below 1 other
    than 0 is raised to 1, a whole depth from 1 to 9 is kept, and a
    depth above 9, the depth 0, [NaN] or an unset depth give 9.  A
    non-integer depth between 1 and 9 is passed on as it is and never
    stops the search, which then runs to the end of the board, as with
    the limit 9.  The limit is the one of the search: on a 9-cell board
    [chooseBestMove] returns the move of the search limited to that
    many plies, and does not depend on what the winner test says of
    boards more than that many marks away.  In particular, for every
    input, [chooseBestMove] returns what it returns with the limit as
    depth: with a depth below 1 other than 0 what it returns with depth
    1, and with depth 0 what it returns with depth 9. *)
Theorem C3_effective_depth (depth : option jsnum) :
  let limit := effective_limit depth in
  1 <= limit <= 9 /\
  match Ai.clampDepth (default (Num 9) depth) with
  | Ai.Whole depthLeft => depthLeft = limit
  | Ai.Part z n d =>
      depth = Some (Frac z n d) /\ (1 <= z <= 8)%Z /\ limit = 9
  end /\
  (forall h r ai s cw,
     length (heap_read h r) = 9 -> s ≠ "quick"%string ->
     Ai.chooseBestMove h (VArray r) ai (Ai.mkOpts s depth cw) =
       (Ai.move (Ai.minimax_value ai cw limit (heap_read h r) ai),
        h ++ [heap_read h r]) /\
     forall cw',
       (forall b', within limit (heap_read h r) b' -> cw' b' = cw b') ->
       Ai.chooseBestMove h (VArray r) ai (Ai.mkOpts s depth cw') =
       Ai.chooseBestMove h (VArray r) ai (Ai.mkOpts s depth cw)) /\
  (forall h board ai s cw,
     Ai.chooseBestMove h board ai (Ai.mkOpts s depth cw) =
     Ai.chooseBestMove h board ai
       (Ai.mkOpts s (Some (Num (Z.of_nat limit))) cw)) /\
  (forall d, depth = Some d -> js_lt d 1 = true -> d ≠ Num 0 -> limit = 1) /\
  (depth = None \/ depth = Some NaN \/ depth = Some (Num 0) \/
   (exists d, depth = Some d /\ js_gt d 9 = true) -> limit = 9) /\
  (forall z, depth = Some (Num z) -> (1 <= z <= 9)%Z -> limit = Z.to_nat z) /\
  (forall z n d, depth = Some (Frac z n d) -> (1 <= z <= 8)%Z -> limit = 9).
Proof.
  cbv zeta.
  assert (Harray : forall h r ai s cw d,
    length (heap_read h r) = 9 -> s ≠ "quick"%string ->
    Ai.chooseBestMove h (VArray r) ai (Ai.mkOpts s d cw) =
    (Ai.move (Ai.minimax_value ai cw (effective_limit d) (heap_read h r) ai),
     h ++ [heap_read h r])).
  { intros h r ai s cw d Hlen Hs. rewrite chooseBestMove_array by done.
    cbn [Ai.strategy Ai.depth Ai.computeWinner].
    by destruct (String.eqb_spec s "quick"). }
  split; [apply effective_limit_range |].
  split.
  { pose proof (clampDepth_limit depth) as Hlimit.
    destruct depth as [[|z|z n d| |]|]; try exact Hlimit.
    simpl in *. destruct (Z.leb_spec 9 z); [exact Hlimit |].
    destruct (Z.ltb_spec z 1); [exact Hlimit |].
    destruct Hlimit as [Hl Hz]. done. }
  split.
  { intros h r ai s cw Hlen Hs. split; [by apply Harray |].
    intros cw' Hcw. rewrite !Harray by done.
    by rewrite (minimax_value_local ai cw cw'). }
  split.
  { intros h board ai s cw. destruct board as [r |]; [| reflexivity].
    destruct (decide (length (heap_read h r) = 9)) as [Hlen | Hlen].
    - rewrite !chooseBestMove_array by done.
      cbn [Ai.strategy Ai.depth Ai.computeWinner].
      by rewrite effective_limit_whole.
    - rewrite !chooseBestMove_not_board; [done | |]; by intros ? [= <-]. }
  split.
  { intros d -> Hlt Hd. destruct d as [|z|z n d| |]; simpl in *; try done.
    - destruct (Z.eqb_spec z 0); [congruence |].
      destruct (Z.ltb_spec z 1); [done | lia].
    - by rewrite Hlt. }
  split.
  { intros [-> | [-> | [-> | (d & -> & Hgt)]]]; try reflexivity.
    destruct d as [|z|z n d| |]; simpl in *; try done.
    - destruct (Z.eqb_spec z 0); [done |].
      destruct (Z.ltb_spec z 1); [lia |].
      destruct (Z.ltb_spec 9 z); [done | lia].
    - destruct (Z.ltb_spec z 1); [lia | done]. }
  split.
  { intros z -> Hz. simpl.
    destruct (Z.eqb_spec z 0); [lia |].
    destruct (Z.ltb_spec z 1); [lia |].
    destruct (Z.ltb_spec 9 z); [lia | done]. }
  intros z n d -> Hz. simpl. destruct (Z.ltb_spec z 1); [lia | done].
Qed.

Lemma C3_witness :
  Ai.chooseBestMove [threat_board] (VArray 0) X
    (hookOpts "minimax" (Some (Frac 1 1 1))) =
  Ai.chooseBestMove [threat_board] (VArray 0) X
    (hookOpts "minimax" (Some (Num 9))) /\
  Ai.chooseBestMove [threat_board] (VArray 0) X
    (hookOpts "minimax" (Some (Num (-3)))) =
  Ai.chooseBestMove [threat_board] (VArray 0) X
    (hookOpts "minimax" (Some (Num 1))).
Proof.
  split.
  - destruct (C3_effective_depth (Some (Frac 1 1 1)))
      as (_ & _ & _ & Hsame & _).
    exact (Hsame [threat_board] (VArray 0) X "minimax"%string
             Hook.computeWinner).
  - destruct (C3_effective_depth (Some (Num (-3))))
      as (_ & _ & _ & Hsame & _).
    exact (Hsame [threat_board] (VArray 0) X "minimax"%string
             Hook.computeWinner).
Defined.

(** ** C4: the quick strategy *)

(** C4: on every 9-cell board the 'quick' strategy answers 4 when the
    centre is empty; otherwise the first empty corner in the order
    0, 2, 6, 8; otherwise the first empty edge in the order 1, 3, 5, 7;
    and [-1] when no cell is empty.  The heap is left as it was. *)
Theorem C4_quick_priority h r ai depth cw :
  length (heap_read h r) = 9 ->
  let b := heap_read h r in
  let out := Ai.chooseBestMove h (VArray r) ai (Ai.mkOpts "quick" depth cw) in
  out.2 = h /\
  (read b 4 = None -> out.1 = 4%Z) /\
  (read b 4 ≠ None ->
     forall i, first_in_order b [0; 2; 6; 8] i -> out.1 = Z.of_nat i) /\
  (read b 4 ≠ None -> (forall j, j ∈ [0; 2; 6; 8] -> read b j ≠ None) ->
     forall i, first_in_order b [1; 3; 5; 7] i -> out.1 = Z.of_nat i) /\
  ((forall i, i < 9 -> read b i ≠ None) -> out.1 = (-1)%Z).
Proof.
  intros Hlen. cbv zeta. rewrite chooseBestMove_array by done. simpl.
  set (b := heap_read h r). unfold Ai.quickHeuristic. cbv zeta.
  split; [done |]. split; [| split; [| split]].
  - intros ->. done.
  - intros Hc i Hi. destruct (read b 4); [| done]. cbn [truthy negb].
    apply first_empty_Some in Hi. by rewrite Hi.
  - intros Hc Hcorners i Hi. destruct (read b 4); [| done]. cbn [truthy negb].
    apply first_empty_None in Hcorners. apply first_empty_Some in Hi.
    by rewrite Hcorners, Hi.
  - intros Hfull. destruct (read b 4) eqn:H4; [| by destruct (Hfull 4); [lia |]].
    cbn [truthy negb].
    assert (Hcorners : Ai.first_empty b [0; 2; 6; 8] = None).
    { apply first_empty_None. intros j Hj. apply Hfull. set_unfold in Hj. lia. }
    assert (Hedges : Ai.first_empty b [1; 3; 5; 7] = None).
    { apply first_empty_None. intros j Hj. apply Hfull. set_unfold in Hj. lia. }
    by rewrite Hcorners, Hedges.
Qed.

Lemma C4_witness :
  (Ai.chooseBestMove [threat_board] (VArray 0) O (hookOpts "quick" None)).1
  = 0%Z.
Proof.
  destruct (C4_quick_priority [threat_board] 0 O None Hook.computeWinner
              eq_refl) as (_ & _ & Hcorner & _).
  apply (Hcorner ltac:(discriminate) 0).
  exists [], [2; 6; 8]. repeat split. intros j Hj. inversion Hj.
Defined.

(** ** C5: first-seen child wins ties *)

(** C5: at every node that is searched further, the candidate moves are
    enumerated in ascending index order, [best] is replaced only by a
    strictly better child, and the node returns a child [m] that no
    child beats and that strictly beats every child of lower index: on
    a tie the lowest index is chosen.  The result depends only on the
    cells of the board, the side to move and the depth. *)
Theorem C5_first_best_child ai cw d h r p :
  r < length h -> length (heap_read h r) = 9 ->
  Ai.terminalScore ai cw (heap_read h r) (S d) = None ->
  let b := heap_read h r in
  let child m :=
    Ai.score (Ai.minimax ai cw d (heap_write h r m (Some p)) r (other p)).1 in
  let res := (Ai.minimax ai cw (S d) h r p).1 in
  StronglySorted lt (Ai.availableMoves b) /\
  (forall best c m,
     Ai.keep ai p best c m =
     if better ai p (Ai.score best) (Ai.score c)
     then Ai.mkResult (Ai.score c) (Z.of_nat m) else best) /\
  (exists m,
     m ∈ Ai.availableMoves b /\
     res = Ai.mkResult (child m) (Z.of_nat m) /\
     (forall m', m' ∈ Ai.availableMoves b ->
        better ai p (child m) (child m') = false) /\
     (forall m', m' ∈ Ai.availableMoves b -> m' < m ->
        better ai p (child m') (child m) = true)) /\
  (forall h' r', r' < length h' -> heap_read h' r' = b ->
     (Ai.minimax ai cw (S d) h' r' p).1 = res).
Proof.
  intros Hr Hlen Ht. cbv zeta. set (b := heap_read h r) in *.
  assert (Hchild : forall m, m ∈ Ai.availableMoves b ->
    (Ai.minimax ai cw d (heap_write h r m (Some p)) r (other p)).1 =
    Ai.minimax_value ai cw d (<[m:=Some p]> b) (other p)).
  { intros m Hm. apply elem_of_availableMoves in Hm as [Hm _].
    assert (Hrd : heap_read (heap_write h r m (Some p)) r = <[m:=Some p]> b).
    { rewrite heap_read_write by done. apply array_set_in_range.
      fold b. lia. }
    rewrite minimax_frame.
    - by rewrite Hrd.
    - by rewrite length_heap_write.
    - by rewrite Hrd, length_insert. }
  split; [apply availableMoves_sorted |].
  split; [apply keep_better |].
  split.
  - rewrite minimax_frame by done. simpl. fold b.
    destruct (minimax_value_best ai cw d b p Hlen Ht)
      as (m & Hm & Heq & Hbest & Hlower).
    exists m. split; [done |]. rewrite (Hchild m) by done.
    split; [done |]. split.
    + intros m' Hm'. rewrite (Hchild m') by done. auto.
    + intros m' Hm' Hlt. rewrite (Hchild m') by done. auto.
  - intros h' r' Hr' Hb.
    rewrite !minimax_frame by (done || by rewrite Hb). simpl. by rewrite Hb.
Qed.

Lemma C5_witness :
  exists m,
    m ∈ Ai.availableMoves threat_board /\
    (Ai.minimax X Hook.computeWinner 1 [threat_board] 0 X).1 =
    Ai.mkResult
      (Ai.score
         (Ai.minimax X Hook.computeWinner 0
            (heap_write [threat_board] 0 m (Some X)) 0 (other X)).1)
      (Z.of_nat m).
Proof.
  destruct (C5_first_best_child X Hook.computeWinner 0 [threat_board] 0 X)
    as (_ & _ & (m & Hm & Hres & _) & _).
  - simpl. lia.
  - reflexivity.
  - reflexivity.
  - exists m. split; [exact Hm | exact Hres].
Defined.

(** ** C6: the caller's board is not mutated *)

(** C6: for every input, every array that exists before the call to
    [chooseBestMove], the caller's board among them, holds the same cells
    after it; the call allocates at most the scratch copy, which ends
    with the cells it started with; and a search started on a 9-cell
    array hands it back unchanged, every mark retracted. *)
Theorem C6_board_unchanged h board ai opts :
  let h' := (Ai.chooseBestMove h board ai opts).2 in
  (forall r b, h !! r = Some b -> h' !! r = Some b) /\
  (h' = h \/ exists r, board = VArray r /\ h' = h ++ [heap_read h r]) /\
  (forall d hs s p, s < length hs -> length (heap_read hs s) = 9 ->
     (Ai.minimax ai (Ai.computeWinner opts) d hs s p).2 = hs).
Proof.
  cbv zeta.
  assert (Hshape :
    (Ai.chooseBestMove h board ai opts).2 = h \/
    exists r, board = VArray r /\
      (Ai.chooseBestMove h board ai opts).2 = h ++ [heap_read h r]).
  { destruct board as [r |]; [| by left].
    destruct (decide (length (heap_read h r) = 9)) as [Hlen | Hlen].
    - rewrite chooseBestMove_array by done.
      destruct (String.eqb _ _); [by left | right; eauto].
    - left. rewrite chooseBestMove_not_board; [done |]. by intros ? [= <-]. }
  split; [| split; [done |]].
  - intros r b Hb. destruct Hshape as [-> | (r' & _ & ->)]; [done |].
    rewrite lookup_app_l; [done |]. by apply lookup_lt_Some in Hb.
  - intros d hs s p Hs Hlen. by rewrite minimax_frame.
Qed.

Lemma C6_witness :
  (Ai.chooseBestMove [threat_board] (VArray 0) X
     (hookOpts "minimax" (Some (Num 9)))).2 !! 0 = Some threat_board.
Proof.
  destruct (C6_board_unchanged [threat_board] (VArray 0) X
              (hookOpts "minimax" (Some (Num 9)))) as [Hold _].
  apply Hold. reflexivity.
Defined.

(** ** C7: a full board has no move *)

(** C7: for every full 9-cell board, every AI side, every strategy,
    every depth and every injected [computeWinner], [chooseBestMove]
    returns the value [-1]. *)
Theorem C7_full_board_no_move h r ai opts :
  length (heap_read h r) = 9 ->
  (forall i, i < 9 -> read (heap_read h r) i ≠ None) ->
  (Ai.chooseBestMove h (VArray r) ai opts).1 = (-1)%Z.
Proof.
  intros Hlen Hfull. rewrite chooseBestMove_array by done.
  destruct (String.eqb _ _); simpl.
  - destruct (quickHeuristic_cases (heap_read h r))
      as [(i & _ & Hi & Hr) | [Hmove _]]; [| done].
    by destruct (Hfull i Hi).
  - assert (Hevery : every_truthy (heap_read h r) = true).
    { apply all_marked_full. rewrite Hlen. done. }
    rewrite minimax_value_unfold.
    destruct (terminalScore_full ai (Ai.computeWinner opts) (heap_read h r)
                (effective_limit (Ai.depth opts))
                Hevery) as [t ->].
    done.
Qed.

Lemma C7_witness :
  (Ai.chooseBestMove [full_board] (VArray 0) O
     (hookOpts "minimax" (Some (Num 4)))).1 = (-1)%Z.
Proof.
  apply (C7_full_board_no_move [full_board] 0 O
           (hookOpts "minimax" (Some (Num 4)))).
  - reflexivity.
  - intros i Hi.
    do 9 (destruct i as [|i]; [discriminate |]). lia.
Defined.

(** ** C8: a malformed board has no move *)

(** C8: when [board] is not an array, or is an array whose length is not
    9, [chooseBestMove] returns [-1] at once, whatever the AI side, the
    strategy and the depth; it allocates nothing. *)
Theorem C8_malformed_board h board ai opts :
  (forall r, board = VArray r -> length (heap_read h r) ≠ 9) ->
  Ai.chooseBestMove h board ai opts = ((-1)%Z, h).
Proof. apply chooseBestMove_not_board. Qed.

Lemma C8_witness :
  Ai.chooseBestMove [[None; Some X]] (VArray 0) X (hookOpts "minimax" None)
  = ((-1)%Z, [[None; Some X]]) /\
  Ai.chooseBestMove [] VOther O (hookOpts "quick" None) = ((-1)%Z, []).
Proof.
  split.
  - apply C8_malformed_board. intros r [= <-]. simpl. lia.
  - apply C8_malformed_board. intros r Hr. discriminate Hr.
Defined.

(** ** C9: the hook's [makeMove] *)

Lemma read_array_set_eq (b : board) i v : read (array_set b i v) i = v.
Proof.
  unfold array_set. destruct (Nat.ltb_spec i (length b)) as [Hi | Hi].
  - by apply read_insert_eq.
  - unfold read. rewrite lookup_app_r by done.
    rewrite lookup_app_r by (rewrite length_replicate; lia).
    rewrite length_replicate. by replace (i - length b - (i - length b)) with 0 by lia.
Qed.

Lemma read_array_set_ne (b : board) i j v :
  i ≠ j -> read (array_set b i v) j = read b j.
Proof.
  intros Hij. unfold array_set.
  destruct (Nat.ltb_spec i (length b)) as [Hi | Hi];
    [by apply read_insert_ne |].
  unfold read. destruct (decide (j < length b)) as [Hj | Hj].
  - by rewrite lookup_app_l.
  - rewrite (lookup_ge_None_2 b j) by lia. simpl.
    rewrite lookup_app_r by lia.
    destruct (decide (j < i)) as [Hji | Hji].
    + rewrite lookup_app_l by (rewrite length_replicate; lia).
      rewrite lookup_replicate_2 by lia. done.
    + rewrite lookup_app_r by (rewrite length_replicate; lia).
      rewrite length_replicate.
      destruct (j - length b - (i - length b)) as [|k] eqn:Hk; [lia | done].
Qed.

(** The claim holds for these calls: a call in a finished game, with a
    non-number, with an integer outside 0..8 or on an occupied cell is
    rejected and changes nothing. *)
Lemma makeMove_rejects st index :
  index ≠ Hook.INum NaN ->
  Hook.winner st ≠ None \/ Hook.isDraw st = true \/
  index = Hook.INotNumber \/
  (exists z, index = Hook.INum (Num z) /\
     ((z < 0)%Z \/ (8 < z)%Z \/ read (Hook.st_board st) (Z.to_nat z) ≠ None)) ->
  Hook.makeMove st index = (false, st, []).
Proof.
  intros Hnan Hcase. unfold Hook.makeMove.
  destruct (Hook.winner st) as [w|] eqn:Hw; [done |].
  destruct (Hook.isDraw st) eqn:Hd; [done |]. simpl.
  destruct Hcase as [? | [? | [-> | (z & -> & Hz)]]]; try done.
  simpl. destruct (Z.ltb_spec z 0); [done |].
  destruct (Z.ltb_spec 8 z); [done |]. simpl.
  destruct Hz as [? | [? | Hz]]; try lia.
  destruct (read _ _); done.
Qed.

(** In every other state an integer index is accepted: the current
    player's mark is placed at that cell and no other cell changes. *)
Lemma makeMove_accepts st z :
  Hook.winner st = None -> Hook.isDraw st = false ->
  (0 <= z <= 8)%Z -> read (Hook.st_board st) (Z.to_nat z) = None ->
  exists st' events,
    Hook.makeMove st (Hook.INum (Num z)) = (true, st', events) /\
    read (Hook.st_board st') (Z.to_nat z) = Some (Hook.currentPlayer st) /\
    forall j, j ≠ Z.to_nat z ->
      read (Hook.st_board st') j = read (Hook.st_board st) j.
Proof.
  intros Hw Hd Hz Hcell. unfold Hook.makeMove. rewrite Hw, Hd. simpl.
  destruct (Z.ltb_spec z 0); [lia |]. destruct (Z.ltb_spec 8 z); [lia |].
  simpl. rewrite Hcell. simpl.
  destruct (Hook.updateOutcome _ _) as [[w d] sc]. eexists _, _.
  split; [reflexivity |]. simpl. split.
  - apply read_array_set_eq.
  - intros j Hj. by apply read_array_set_ne.
Qed.

(** C9 fails at the index [NaN]: it is not a number in [0,8], yet both
    range tests are false on it, so the call returns [true], passes the
    turn to O and logs a MOVE while no cell receives a mark. *)
Theorem C9_makeMove_accepts_NaN :
  let st := Hook.initial (mkScores 0 0 0) in
  exists events,
    Hook.makeMove st (Hook.INum NaN) =
      (true, Hook.mkState empty_board O None false (mkScores 0 0 0), events) /\
    length events = 1.
Proof. eexists. split; reflexivity. Qed.

(** ** C10: the audit log is capped *)

Lemma slice_last_short {A} n (l : list A) :
  length l <= n -> Audit.slice_last n l = l.
Proof.
  intros Hn. unfold Audit.slice_last.
  by replace (length l - n) with 0 by lia.
Qed.

Lemma length_slice_last {A} n (l : list A) :
  length (Audit.slice_last n l) = Nat.min n (length l).
Proof. unfold Audit.slice_last. rewrite length_drop. lia. Qed.

Lemma slice_last_app {A} n (l k : list A) :
  Audit.slice_last n (Audit.slice_last n l ++ k) = Audit.slice_last n (l ++ k).
Proof.
  destruct (decide (length l <= n)) as [Hn | Hn];
    [by rewrite (slice_last_short n l) |].
  unfold Audit.slice_last.
  rewrite !length_app, length_drop.
  replace (length l - (length l - n) + length k - n) with (length k) by lia.
  replace (length l + length k - n) with ((length l - n) + length k) by lia.
  rewrite <- drop_drop. f_equal. rewrite drop_app_le by lia. done.
Qed.

Lemma logEvent_slice buffer event ts :
  Audit.logEvent buffer event ts =
  Audit.slice_last Audit.MAX_LOGS (buffer ++ [Audit.payload event ts]).
Proof.
  unfold Audit.logEvent.
  destruct (Nat.ltb_spec Audit.MAX_LOGS
              (length (buffer ++ [Audit.payload event ts]))); [done |].
  by rewrite slice_last_short.
Qed.

Lemma run_slice events : forall arr,
  fold_left (fun buffer e => Audit.logEvent buffer e.1 e.2) events
    (Audit.slice_last Audit.MAX_LOGS arr) =
  Audit.slice_last Audit.MAX_LOGS
    (arr ++ map (fun e => Audit.payload e.1 e.2) events).
Proof.
  induction events as [|e events IH]; intros arr; simpl.
  - by rewrite app_nil_r.
  - rewrite logEvent_slice, slice_last_app, IH, <- app_assoc. done.
Qed.

(** C10: whatever was stored at start-up and however many events are
    logged, the buffer is the last 100 entries of the restored array
    followed by the logged entries, so [getAuditLog] never returns more
    than 100 entries. *)
Theorem C10_audit_log_capped (s : Audit.Stored)
  (events : list (Audit.Event * string)) :
  let log := Audit.getAuditLog (Audit.run s events) in
  length log <= 100 /\
  length (Audit.init s) <= 100 /\
  log = Audit.slice_last 100
          (restored s ++ map (fun e => Audit.payload e.1 e.2) events).
Proof.
  cbv zeta. unfold Audit.getAuditLog, Audit.run.
  assert (Hinit : Audit.init s = Audit.slice_last Audit.MAX_LOGS (restored s)).
  { by destruct s. }
  rewrite Hinit, run_slice, !length_slice_last.
  change Audit.MAX_LOGS with 100. repeat split; lia.
Qed.

(** ** C1: full-depth minimax never loses *)

Lemma other_involutive p : other (other p) = p.
Proof. by destruct p. Qed.

Lemma player_eqb_refl p : player_eqb p p = true.
Proof. by destruct p. Qed.

Lemma player_eqb_other p : player_eqb (other p) p = false.
Proof. by destruct p. Qed.

Lemma player_eqb_eq p q : player_eqb p q = true <-> p = q.
Proof. destruct p, q; simpl; split; (done || congruence). Qed.

Lemma length_array_set (b : board) i v :
  i < length b -> length (array_set b i v) = length b.
Proof. intros Hi. rewrite array_set_in_range by done. apply length_insert. Qed.

Lemma game_over_false (b : board) :
  game_over b = false ->
  Hook.computeWinner b = None /\ every_truthy b = false.
Proof.
  unfold game_over. intros H. apply orb_false_iff in H as [Hw Hf].
  by destruct (Hook.computeWinner b).
Qed.

Lemma existsb_ext_in {A} (f g : A -> bool) l :
  (forall x, x ∈ l -> f x = g x) -> existsb f l = existsb g l.
Proof.
  induction l as [|x l IH]; intros Hfg; simpl; [done |].
  rewrite Hfg by set_solver. rewrite IH; [done |]. intros y Hy. apply Hfg. set_solver.
Qed.

Lemma forallb_ext_in {A} (f g : A -> bool) l :
  (forall x, x ∈ l -> f x = g x) -> forallb f l = forallb g l.
Proof.
  induction l as [|x l IH]; intros Hfg; simpl; [done |].
  rewrite Hfg by set_solver. rewrite IH; [done |]. intros y Hy. apply Hfg. set_solver.
Qed.

(** A filter that accepts less, and rejects an element the other one
    accepts, keeps fewer elements. *)
Lemma holds_unfold n ai b p :
  holds n ai b p =
  match Hook.computeWinner b with
  | Some w => player_eqb w ai
  | None =>
      if every_truthy b then true
      else
        match n with
        | 0 => true
        | S n' =>
            if player_eqb p ai
            then existsb (fun m => holds n' ai (<[m:=Some p]> b) (other p))
                   (Ai.availableMoves b)
            else forallb (fun m => holds n' ai (<[m:=Some p]> b) (other p))
                   (Ai.availableMoves b)
        end
  end.
Proof. destruct n; reflexivity. Qed.

(** Once the depth covers the empty cells, one more ply changes nothing. *)
Lemma holds_succ ai n : forall b p,
  length b = 9 -> length (Ai.availableMoves b) <= n ->
  holds (S n) ai b p = holds n ai b p.
Proof.
  induction n as [|n IH]; intros b p Hlen Hn;
    [rewrite (holds_unfold 1), (holds_unfold 0)
    | rewrite (holds_unfold (S (S n))), (holds_unfold (S n))];
    destruct (Hook.computeWinner b); try done;
    destruct (every_truthy b) eqn:Hfull; try done.
  - destruct (every_truthy_false b Hfull) as (i & Hi & Hr).
    assert (Hin : i ∈ Ai.availableMoves b).
    { apply elem_of_availableMoves. split; [lia | done]. }
    destruct (Ai.availableMoves b); [by apply elem_of_nil in Hin | simpl in Hn; lia].
  - assert (Hchild : forall m, m ∈ Ai.availableMoves b ->
      holds (S n) ai (<[m:=Some p]> b) (other p) =
      holds n ai (<[m:=Some p]> b) (other p)).
    { intros m Hm. apply IH; [by rewrite length_insert |].
      pose proof (availableMoves_insert b m p Hlen Hm). lia. }
    destruct (player_eqb p ai);
      [by apply existsb_ext_in | by apply forallb_ext_in].
Qed.

Lemma holds_full_depth ai n b p :
  length b = 9 -> length (Ai.availableMoves b) <= n -> n <= 9 ->
  holds n ai b p = holds 9 ai b p.
Proof.
  intros Hlen Hn Hle.
  assert (Hadd : forall k, holds (k + n) ai b p = holds n ai b p).
  { induction k as [|k IHk]; [done |].
    cbn [Nat.add]. rewrite holds_succ by (done || lia). done. }
  rewrite <- (Hadd (9 - n)). f_equal. lia.
Qed.

(** The search value is not negative exactly when the position holds. *)
Lemma holds_value ai d : forall b p,
  length b = 9 ->
  score_nonneg (Ai.score (Ai.minimax_value ai Hook.computeWinner d b p)) =
  holds d ai b p.
Proof.
  induction d as [|d IH]; intros b p Hlen;
    rewrite minimax_value_unfold, holds_unfold;
    unfold Ai.terminalScore at 1, Ai.human;
    destruct (Hook.computeWinner b) as [w|] eqn:Hw; simpl.
  1, 3: destruct w, ai; simpl; unfold score_nonneg; simpl;
        try done; apply negb_true_iff || apply negb_false_iff;
        (apply Z.ltb_ge || apply Z.ltb_lt); lia.
  - by destruct (every_truthy b).
  - destruct (every_truthy b) eqn:Hfull; [done |].
    assert (Ht : Ai.terminalScore ai Hook.computeWinner b (S d) = None).
    { unfold Ai.terminalScore. by rewrite Hw, Hfull. }
    destruct (minimax_value_best ai Hook.computeWinner d b p Hlen Ht)
      as (m & Hm & Heq & Hbest & _).
    pose proof (minimax_value_unfold ai Hook.computeWinner (S d) b p) as Hun.
    rewrite Ht in Hun. rewrite <- Hun, Heq. simpl.
    assert (Hchild : forall m',
      score_nonneg
        (Ai.score (Ai.minimax_value ai Hook.computeWinner d
                     (<[m':=Some p]> b) (other p))) =
      holds d ai (<[m':=Some p]> b) (other p)).
    { intros m'. apply IH. by rewrite length_insert. }
    unfold better in Hbest. apply eq_true_iff_eq.
    destruct (player_eqb p ai).
    + rewrite existsb_exists. split.
      * intros Hnn. exists m. split; [by apply list_elem_of_In |].
        by rewrite <- Hchild.
      * intros (m' & Hm' & Hh). rewrite <- Hchild in Hh.
        apply list_elem_of_In in Hm'. specialize (Hbest m' Hm').
        unfold score_nonneg in *. apply negb_true_iff in Hh.
        apply negb_true_iff. eauto using score_nlt_trans.
    + rewrite forallb_forall. split.
      * intros Hnn m' Hm'. rewrite <- Hchild.
        apply list_elem_of_In in Hm'. specialize (Hbest m' Hm').
        unfold score_nonneg in *. apply negb_true_iff in Hnn.
        apply negb_true_iff. eauto using score_nlt_trans.
      * intros Hall. rewrite Hchild. apply Hall. by apply list_elem_of_In.
Qed.

(** On a 9-cell board the facade at full depth answers the move of the
    search at depth 9. *)
Lemma chooseBestMove_fullDepth h r ai :
  length (heap_read h r) = 9 ->
  Ai.chooseBestMove h (VArray r) ai fullDepth =
  (Ai.move (Ai.minimax_value ai Hook.computeWinner 9 (heap_read h r) ai),
   h ++ [heap_read h r]).
Proof. intros Hlen. by rewrite chooseBestMove_array. Qed.

(** Every move of a game keeps the position holding for the AI side. *)
Lemma holds_step ai pos pos' :
  step ai pos pos' ->
  length pos.1 = 9 -> holds 9 ai pos.1 pos.2 = true ->
  length pos'.1 = 9 /\ holds 9 ai pos'.1 pos'.2 = true.
Proof.
  intros Hstep Hlen Hholds.
  destruct Hstep as [b h r m h' Hover Hb Hmove | b m Hover Hm Hcell];
    cbn [fst snd] in *;
    apply game_over_false in Hover as [Hw Hfull].
  - rewrite <- Hb in Hlen. rewrite chooseBestMove_fullDepth in Hmove by done.
    rewrite Hb in Hlen, Hmove. apply (f_equal fst) in Hmove.
    cbn [fst] in Hmove.
    assert (Ht : Ai.terminalScore ai Hook.computeWinner b 9 = None).
    { unfold Ai.terminalScore. by rewrite Hw, Hfull. }
    destruct (minimax_value_best ai Hook.computeWinner 8 b ai Hlen Ht)
      as (m' & Hm' & Heq & _).
    rewrite <- (holds_value ai 9 b ai Hlen), Heq in Hholds.
    rewrite Heq in Hmove. cbn [Ai.score Ai.move] in Hmove, Hholds.
    apply Nat2Z.inj in Hmove. subst m'.
    rewrite holds_value in Hholds by (by rewrite length_insert).
    pose proof Hm' as Hin. apply elem_of_availableMoves in Hin as [Hlt _].
    rewrite array_set_in_range by lia. rewrite length_insert.
    split; [done |]. rewrite <- Hholds. symmetry.
    apply holds_full_depth; [by rewrite length_insert | | lia].
    pose proof (availableMoves_insert b m ai Hlen Hm').
    pose proof (availableMoves_bound b). lia.
  - assert (Hin : m ∈ Ai.availableMoves b) by (by apply elem_of_availableMoves).
    rewrite array_set_in_range by lia. rewrite length_insert.
    split; [done |].
    rewrite holds_unfold, Hw, Hfull, player_eqb_other in Hholds.
    rewrite forallb_forall in Hholds.
    apply list_elem_of_In, Hholds in Hin. rewrite other_involutive in Hin.
    rewrite <- Hin. symmetry.
    apply holds_full_depth; [by rewrite length_insert | | lia].
    pose proof (availableMoves_insert b m (other ai) Hlen
                  ltac:(by apply elem_of_availableMoves)).
    pose proof (availableMoves_bound b). lia.
Qed.

(** The empty board holds for either AI side, whoever moves first. *)
Lemma holds_empty ai first : holds 9 ai empty_board first = true.
Proof. destruct ai, first; lazy; reflexivity. Qed.

Lemma holds_reachable ai pos :
  reachable ai pos -> length pos.1 = 9 /\ holds 9 ai pos.1 pos.2 = true.
Proof.
  intros [first Hrtc]. revert pos Hrtc. apply rtc_ind_r.
  - split; [done | apply holds_empty].
  - intros pos pos' _ Hstep [Hlen Hholds]. by apply (holds_step ai pos).
Qed.

(** C1: in every game that starts from the empty board, with either
    side moving first, in which one side plays the answers of
    [chooseBestMove] with strategy 'minimax' and depth 9 and the other
    side plays any legal moves, no position is a win for the opponent: a
    finished game is a win of the AI side or a draw.  The AI side is
    never stuck: in an unfinished position its answer is an empty cell. *)
Theorem C1_minimax_never_loses ai b p :
  reachable ai (b, p) ->
  Hook.computeWinner b ≠ Some (other ai) /\
  (game_over b = true ->
     Hook.computeWinner b = Some ai \/
     (Hook.computeWinner b = None /\ every_truthy b = true)) /\
  (game_over b = false ->
     forall h r, heap_read h r = b ->
       exists m,
         (Ai.chooseBestMove h (VArray r) ai fullDepth).1 = Z.of_nat m /\
         m < 9 /\ read b m = None).
Proof.
  intros Hreach.
  destruct (holds_reachable ai _ Hreach) as [Hlen Hholds].
  cbn [fst snd] in Hlen, Hholds.
  assert (Hnot : Hook.computeWinner b ≠ Some (other ai)).
  { rewrite holds_unfold in Hholds. intros Hw. rewrite Hw in Hholds.
    by rewrite player_eqb_other in Hholds. }
  split; [done |]. split.
  - unfold game_over. intros Hover.
    destruct (Hook.computeWinner b) as [w|] eqn:Hw.
    + left. destruct w, ai; (done || by destruct Hnot).
    + right. done.
  - intros Hover h r Hb.
    apply game_over_false in Hover as [Hw Hfull].
    destruct (every_truthy_false _ Hfull) as (i & Hi & Hr).
    subst b. apply chooseBestMove_picks_empty; [done | | by right].
    exists i. split; [lia | done].
Qed.

Lemma C1_witness :
  Hook.computeWinner (array_set empty_board 4 (Some O)) ≠ Some O.
Proof.
  apply (C1_minimax_never_loses X (array_set empty_board 4 (Some O)) X).
  exists O. eapply rtc_l; [| apply rtc_refl].
  apply (step_opponent X empty_board 4); [reflexivity | lia | reflexivity].
Defined.


(** * Further properties *)

(** ** The winner test *)

Lemma line_test (b : board) x y z :
  truthy (read b x) && strict_eq (read b x) (read b y)
    && strict_eq (read b x) (read b z) = true <->
  exists p, complete b p (x, y, z).
Proof.
  unfold complete. simpl. split.
  - intros H. apply andb_true_iff in H as [H Hz].
    apply andb_true_iff in H as [Hx Hy].
    apply strict_eq_true in Hy, Hz.
    destruct (read b x) as [p|] eqn:Hp; [| done].
    exists p. by rewrite <- Hy, <- Hz.
  - intros (p & -> & -> & ->). by destruct p.
Qed.

Lemma scan_lines_Some (b : board) ls p :
  Hook.scan_lines b ls = Some p -> exists l, l ∈ ls /\ complete b p l.
Proof.
  induction ls as [|[[x y] z] ls IH]; simpl; [done |].
  destruct (truthy (read b x) && strict_eq (read b x) (read b y)
            && strict_eq (read b x) (read b z)) eqn:Ht.
  - intros Hx. apply line_test in Ht as (q & Hq).
    exists (x, y, z). split; [by left |].
    destruct Hq as (Hq & ?). simpl in Hq. rewrite Hq in Hx.
    injection Hx as ->. done.
  - intros H. destruct (IH H) as (l & Hl & Hc). exists l. split; [by right | done].
Qed.

Lemma scan_lines_None (b : board) ls :
  Hook.scan_lines b ls = None <-> forall l p, l ∈ ls -> ~ complete b p l.
Proof.
  induction ls as [|[[x y] z] ls IH]; simpl.
  - split; [| done]. intros _ l p Hl. by apply elem_of_nil in Hl.
  - destruct (truthy (read b x) && strict_eq (read b x) (read b y)
              && strict_eq (read b x) (read b z)) eqn:Ht.
    + apply line_test in Ht as (q & Hq). split.
      * destruct Hq as (Hq & _). simpl in Hq. by rewrite Hq.
      * intros H. destruct (H (x, y, z) q); [by left | done].
    + rewrite IH. split.
      * intros H l p Hl. apply elem_of_cons in Hl as [-> | Hl]; [| by apply H].
        intros Hc. assert (Hex : exists p, complete b p (x, y, z)) by eauto.
        apply line_test in Hex. congruence.
      * intros H l p Hl. apply H. by right.
Qed.

(** X1: [computeWinner] names a side only when one of the eight lines
    carries three marks of that side, and it answers [null] exactly when
    no line carries three equal marks. *)
Theorem computeWinner_complete_line (b : board) :
  (forall p, Hook.computeWinner b = Some p ->
     exists l, l ∈ Hook.lines /\ complete b p l) /\
  (Hook.computeWinner b = None <->
     forall l p, l ∈ Hook.lines -> ~ complete b p l).
Proof.
  split; [intros p; apply scan_lines_Some | apply scan_lines_None].
Qed.

Lemma read_swap_marks (b : board) i :
  read (swap_marks b) i = option_map other (read b i).
Proof.
  unfold read, swap_marks. rewrite list_lookup_fmap.
  by destruct (b !! i).
Qed.

Lemma strict_eq_swap (c d : cell) :
  strict_eq (option_map other c) (option_map other d) = strict_eq c d.
Proof. by destruct c as [[]|], d as [[]|]. Qed.

Lemma truthy_swap (c : cell) : truthy (option_map other c) = truthy c.
Proof. by destruct c. Qed.

Lemma scan_lines_swap (b : board) ls :
  Hook.scan_lines (swap_marks b) ls = option_map other (Hook.scan_lines b ls).
Proof.
  induction ls as [|[[x y] z] ls IH]; simpl; [done |].
  rewrite !read_swap_marks, !strict_eq_swap, truthy_swap, IH.
  by destruct (truthy (read b x) && strict_eq (read b x) (read b y)
               && strict_eq (read b x) (read b z)).
Qed.

(** X2: the winner test treats the two sides alike: on the board with
    the marks exchanged it names the other side. *)
Theorem computeWinner_swap (b : board) :
  Hook.computeWinner (swap_marks b) = option_map other (Hook.computeWinner b).
Proof. apply scan_lines_swap. Qed.

(** ** The game-state hook over a session *)

Lemma count_mark_insert_same (b : board) i p :
  b !! i = Some None ->
  count_mark p (<[i:=Some p]> b) = S (count_mark p b).
Proof.
  unfold count_mark. revert i. induction b as [|c b IH]; intros i Hi; [done |].
  destruct i as [|i]; simpl in *.
  - injection Hi as ->. simpl. by destruct p.
  - destruct (strict_eq c (Some p)); simpl; by rewrite IH.
Qed.

Lemma count_mark_insert_other (b : board) i p q :
  b !! i = Some None -> p ≠ q ->
  count_mark q (<[i:=Some p]> b) = count_mark q b.
Proof.
  unfold count_mark. revert i. induction b as [|c b IH]; intros i Hi Hpq; [done |].
  destruct i as [|i]; simpl in *.
  - injection Hi as ->. simpl. by destruct p, q.
  - destruct (strict_eq c (Some q)); simpl; by rewrite IH.
Qed.


Lemma updateOutcome_fields (nextBoard : board) prev :
  (Hook.updateOutcome nextBoard prev).1.1 = Hook.computeWinner nextBoard /\
  (Hook.updateOutcome nextBoard prev).1.2 =
    negb (truthy (Hook.computeWinner nextBoard)) && every_truthy nextBoard.
Proof.
  unfold Hook.updateOutcome.
  destruct (Hook.computeWinner nextBoard); [done |].
  by destruct (every_truthy nextBoard).
Qed.

(** The two ways a call of [makeMove] can go. *)
Lemma makeMove_cases st index :
  Hook.makeMove st index = (false, st, []) \/
  exists n,
    index = Hook.INum n /\ game_ended st = false /\
    js_lt n 0 = false /\ js_gt n 8 = false /\
    Hook.index_read (Hook.st_board st) n = None /\
    let nextBoard :=
      Hook.index_set (Hook.st_board st) n (Some (Hook.currentPlayer st)) in
    let out := Hook.updateOutcome nextBoard (Hook.scores st) in
    let ended := truthy out.1.1 || out.1.2 in
    (Hook.makeMove st index).1 =
      (true,
       Hook.mkState nextBoard
         (if ended then Hook.currentPlayer st
          else other (Hook.currentPlayer st))
         out.1.1 out.1.2 out.2) /\
    length (Hook.makeMove st index).2 = 1.
Proof.
  unfold Hook.makeMove, game_ended.
  destruct (truthy (Hook.winner st) || Hook.isDraw st) eqn:Hover; [by left |].
  destruct index as [n |]; [| by left].
  destruct (js_lt n 0 || js_gt n 8) eqn:Hrange; [by left |].
  apply orb_false_iff in Hrange as [Hlt Hgt].
  destruct (Hook.index_read (Hook.st_board st) n) as [p|] eqn:Hcell; [by left |].
  right. exists n. simpl.
  destruct (Hook.updateOutcome _ _) as [[w d] sc]. done.
Qed.

Lemma consistent_initial s : consistent (Hook.initial s).
Proof. repeat split. Qed.

(** An index that passes the range test is an integer from 0 to 8,
    unless it names no cell. *)
Lemma index_in_range n :
  names_no_cell (Hook.INum n) = false ->
  js_lt n 0 = false -> js_gt n 8 = false ->
  exists z, n = Num z /\ (0 <= z <= 8)%Z.
Proof.
  destruct n as [|z|z n d| |]; simpl; try done.
  - rewrite !Z.ltb_ge. eauto.
  - rewrite Z.ltb_ge, Z.leb_gt, andb_false_iff, Z.leb_gt, Z.ltb_ge. lia.
Qed.

Lemma consistent_makeMove st index :
  names_no_cell index = false ->
  consistent st -> consistent (Hook.makeMove st index).1.2.
Proof.
  intros Hnan (Hlen & Hw & Hd & Hcount).
  destruct (makeMove_cases st index)
    as [-> | (n & -> & Hover & Hlt & Hgt & Hcell & Hres & _)]; [done |].
  destruct (index_in_range n Hnan Hlt Hgt) as (z & -> & Hz0 & Hz8).
  simpl in Hcell. cbv zeta in Hres. rewrite Hres. clear Hres.
  cbn [fst snd Hook.index_set].
  set (b := Hook.st_board st) in *.
  assert (Hz : Z.to_nat z < length b) by lia.
  rewrite array_set_in_range by done.
  pose proof (read_None_lookup b _ Hz Hcell) as Hlook.
  set (nb := <[Z.to_nat z:=Some (Hook.currentPlayer st)]> b).
  destruct (updateOutcome_fields nb (Hook.scores st)) as [Ew Ed].
  unfold consistent, game_ended. cbn [Hook.st_board Hook.winner Hook.isDraw
    Hook.currentPlayer Hook.scores].
  split; [unfold nb; by rewrite length_insert |]. split; [done |]. split; [done |].
  rewrite Hover in Hcount. unfold nb.
  destruct (Hook.currentPlayer st) eqn:Hcur; simpl in Hcount;
    rewrite count_mark_insert_same by done;
    rewrite count_mark_insert_other by done;
    destruct (truthy _ || _); simpl; lia.
Qed.

Lemma consistent_call st c :
  (forall index, c = CallMove index -> names_no_cell index = false) ->
  consistent st -> consistent (call st c).1.
Proof.
  intros Hc Hst. destruct c as [index |]; simpl.
  - apply consistent_makeMove; [by apply Hc | done].
  - repeat split.
Qed.

Lemma session_snoc st calls c :
  session st (calls ++ [c]) =
  ((call (session st calls).1 c).1,
   (session st calls).2 ++ (call (session st calls).1 c).2).
Proof. unfold session. by rewrite fold_left_app. Qed.

(** X3: in a session that starts from the initial state and goes through
    any sequence of [makeMove] and [resetGame] calls, none of them with
    an index that passes the range test and names no cell ([NaN] or a
    non-integer between 0 and 8), the state stays consistent: the board
    has 9 cells, [winner] and [isDraw] describe the board, X has as many
    marks as O or one more, and the turn matches the marks. *)
Theorem session_consistent s calls :
  (forall c index, c ∈ calls -> c = CallMove index ->
     names_no_cell index = false) ->
  consistent (session (Hook.initial s) calls).1.
Proof.
  induction calls as [|c calls IH] using rev_ind; intros Hcalls.
  - apply consistent_initial.
  - rewrite session_snoc. cbn [fst]. apply consistent_call.
    + intros index. apply Hcalls. apply elem_of_app. right. by left.
    + apply IH. intros c' index Hc'. apply Hcalls. apply elem_of_app. by left.
Qed.

Lemma session_consistent_witness :
  consistent
    (session (Hook.initial (mkScores 0 0 0))
       [CallMove (Hook.INum (Num 4)); CallMove (Hook.INum (Num 0));
        CallReset; CallMove Hook.INotNumber;
        CallMove (Hook.INum (Frac 8 1 1)); CallMove (Hook.INum PInfinity)]).1.
Proof.
  apply session_consistent. intros c index Hc ->.
  repeat (apply elem_of_cons in Hc as [Hc | Hc]; [by simplify_eq |]).
  by apply elem_of_nil in Hc.
Defined.



Lemma marks_makeMove st index :
  names_no_cell index = false -> length (Hook.st_board st) = 9 ->
  let st' := (Hook.makeMove st index).1.2 in
  length (Hook.st_board st') = 9 /\
  count_mark X (Hook.st_board st') + count_mark O (Hook.st_board st') =
  count_mark X (Hook.st_board st) + count_mark O (Hook.st_board st) +
  (if (Hook.makeMove st index).1.1 then 1 else 0).
Proof.
  intros Hnan Hlen. cbv zeta.
  destruct (makeMove_cases st index)
    as [-> | (n & -> & Hover & Hlt & Hgt & Hcell & Hres & _)];
    [simpl; split; [done | lia] |].
  destruct (index_in_range n Hnan Hlt Hgt) as (z & -> & Hz0 & Hz8).
  simpl in Hcell. cbv zeta in Hres. rewrite Hres. clear Hres.
  cbn [fst snd Hook.index_set Hook.st_board].
  assert (Hz : Z.to_nat z < length (Hook.st_board st)) by lia.
  rewrite array_set_in_range by done.
  pose proof (read_None_lookup _ _ Hz Hcell) as Hlook.
  split; [by rewrite length_insert |].
  destruct (Hook.currentPlayer st);
    rewrite count_mark_insert_same by done;
    rewrite count_mark_insert_other by done; lia.
Qed.



Lemma makeMove_scores_eq st index :
  Hook.scores (Hook.makeMove st index).1.2 =
    (if (Hook.makeMove st index).1.1 then
       match Hook.winner (Hook.makeMove st index).1.2 with
       | Some w => Hook.bump w (Hook.scores st)
       | None =>
           if Hook.isDraw (Hook.makeMove st index).1.2
           then Hook.bump_ties (Hook.scores st)
           else Hook.scores st
       end
     else Hook.scores st).
Proof.
  destruct (makeMove_cases st index)
    as [-> | (n & -> & Hover & Hlt & Hgt & Hcell & Hres & _)]; [done |].
  cbv zeta in Hres. rewrite Hres. clear Hres.
  cbn [fst snd Hook.scores Hook.winner Hook.isDraw].
  unfold Hook.updateOutcome.
  destruct (Hook.computeWinner _) as [w|]; cbn [fst snd]; [done |].
  by destruct (every_truthy _).
Qed.

(** X5: a call of [makeMove] changes the scores exactly when it is
    accepted and ends the game.  On counters that are integers of size
    below 2^53, where adding 1 is exact, the counter of X goes up by one
    exactly when the call is accepted and X has won, the counter of O
    exactly when it is accepted and O has won, the ties exactly when it
    is accepted and the game is drawn, and a counter that does not go
    up keeps its value. *)
Theorem makeMove_scores st index :
  exact_counters (Hook.scores st) ->
  let flag := (Hook.makeMove st index).1.1 in
  let st' := (Hook.makeMove st index).1.2 in
  let won p := flag && strict_eq (Hook.winner st') (Some p) in
  scoreX (Hook.scores st') =
    (scoreX (Hook.scores st) + (if won X then 1 else 0))%Z /\
  scoreO (Hook.scores st') =
    (scoreO (Hook.scores st) + (if won O then 1 else 0))%Z /\
  ties (Hook.scores st') =
    (ties (Hook.scores st) + (if flag && Hook.isDraw st' then 1 else 0))%Z.
Proof.
  intros _. cbv zeta.
  destruct (makeMove_cases st index)
    as [-> | (n & -> & Hover & Hlt & Hgt & Hcell & Hres & _)];
    [cbn [fst snd andb]; lia |].
  cbv zeta in Hres. rewrite Hres. clear Hres.
  cbn [fst snd Hook.scores Hook.winner Hook.isDraw andb].
  unfold Hook.updateOutcome.
  destruct (Hook.computeWinner _) as [[]|]; [simpl; lia | simpl; lia |].
  destruct (every_truthy _); simpl; lia.
Qed.

Lemma makeMove_scores_witness :
  scoreX (Hook.scores
            (Hook.makeMove (Hook.initial (mkScores 3 1 2))
               (Hook.INum (Num 4))).1.2) = 3%Z.
Proof.
  destruct (makeMove_scores (Hook.initial (mkScores 3 1 2))
              (Hook.INum (Num 4))) as (HX & _).
  - unfold exact_counters. simpl. lia.
  - exact HX.
Defined.

Lemma scores_le_call st c :
  (scoreX (Hook.scores st) <= scoreX (Hook.scores (call st c).1))%Z /\
  (scoreO (Hook.scores st) <= scoreO (Hook.scores (call st c).1))%Z /\
  (ties (Hook.scores st) <= ties (Hook.scores (call st c).1))%Z.
Proof.
  destruct c as [index |]; simpl; [| lia].
  rewrite makeMove_scores_eq.
  destruct (Hook.makeMove st index).1.1; [| lia].
  destruct (Hook.winner _) as [[]|]; simpl; try lia.
  destruct (Hook.isDraw _); simpl; lia.
Qed.

(** X6: the scores are running totals: no sequence of [makeMove] and
    [resetGame] calls lowers any of the three counters. *)
Theorem session_scores_never_decrease st calls :
  let st' := (session st calls).1 in
  (scoreX (Hook.scores st) <= scoreX (Hook.scores st'))%Z /\
  (scoreO (Hook.scores st) <= scoreO (Hook.scores st'))%Z /\
  (ties (Hook.scores st) <= ties (Hook.scores st'))%Z.
Proof.
  cbv zeta. induction calls as [|c calls IH] using rev_ind.
  - simpl. lia.
  - rewrite session_snoc. cbn [fst].
    pose proof (scores_le_call (session st calls).1 c). lia.
Qed.

(** X7: [resetGame] brings any state back to the initial one with the
    scores kept, and every cell 0..8 is then accepted for X, whatever
    the state was (a finished game included). *)
Theorem resetGame_fresh st :
  (Hook.resetGame st).1 = Hook.initial (Hook.scores st) /\
  forall z, (0 <= z <= 8)%Z ->
    let r := Hook.makeMove (Hook.resetGame st).1 (Hook.INum (Num z)) in
    r.1.1 = true /\
    read (Hook.st_board r.1.2) (Z.to_nat z) = Some X /\
    count_mark X (Hook.st_board r.1.2) = 1 /\
    count_mark O (Hook.st_board r.1.2) = 0.
Proof.
  split; [done |]. intros z Hz. cbv zeta.
  change (Hook.resetGame st).1 with (Hook.initial (Hook.scores st)).
  assert (Hcell : read empty_board (Z.to_nat z) = None).
  { unfold read, empty_board. rewrite lookup_replicate_2 by lia. done. }
  destruct (makeMove_accepts (Hook.initial (Hook.scores st)) z)
    as (st' & events & Heq & Hmark & _); try done.
  rewrite Heq. cbn [fst snd]. split; [done |]. split; [done |].
  destruct (marks_makeMove (Hook.initial (Hook.scores st))
              (Hook.INum (Num z))) as [_ Hmarks]; [done | done |].
  rewrite Heq in Hmarks. cbn [fst snd] in Hmarks. simpl in Hmarks.
  assert (Hx : 1 <= count_mark X (Hook.st_board st')).
  { clear Hmarks. unfold count_mark.
    assert (Hin : Some X ∈ Hook.st_board st').
    { unfold read in Hmark.
      destruct (Hook.st_board st' !! Z.to_nat z) as [c|] eqn:Hc; [| done].
      simpl in Hmark. subst c. by apply list_elem_of_lookup_2 in Hc. }
    apply list_elem_of_In in Hin.
    assert (Hin' : In (Some X)
              (List.filter (fun c => strict_eq c (Some X)) (Hook.st_board st'))).
    { apply filter_In. done. }
    destruct (List.filter _ _); [done | simpl; lia]. }
  lia.
Qed.

Lemma resetGame_fresh_witness :
  (Hook.makeMove (Hook.resetGame (Hook.initial (mkScores 2 1 0))).1
     (Hook.INum (Num 8))).1.1 = true.
Proof.
  destruct (resetGame_fresh (Hook.initial (mkScores 2 1 0))) as [_ Hplay].
  destruct (Hplay 8%Z ltac:(lia)) as [Hflag _]. exact Hflag.
Defined.

(** ** The audit buffer as a queue *)

Lemma logEvent_append buffer event ts :
  length buffer <= 100 ->
  Audit.logEvent buffer event ts =
    (if (length buffer <? 100)%nat then buffer else drop 1 buffer)
    ++ [Audit.payload event ts].
Proof.
  intros Hlen. rewrite logEvent_slice. unfold Audit.slice_last, Audit.MAX_LOGS.
  rewrite length_app. simpl.
  destruct (Nat.ltb_spec (length buffer) 100) as [Hlt | Hge].
  - by replace (length buffer + 1 - 100) with 0 by lia.
  - replace (length buffer + 1 - 100) with 1 by lia.
    rewrite drop_app_le by lia. done.
Qed.

(** X8: while the buffer holds fewer than 100 entries [logEvent]
    appends the new entry; once it holds 100 it drops the oldest entry
    and appends the new one.  The entries kept stay in order and the
    newest entry is last. *)
Theorem logEvent_fifo buffer event ts :
  length buffer <= 100 ->
  Audit.logEvent buffer event ts =
    (if (length buffer <? 100)%nat then buffer else drop 1 buffer)
    ++ [Audit.payload event ts] /\
  last (Audit.getAuditLog (Audit.logEvent buffer event ts)) =
    Some (Audit.payload event ts).
Proof.
  intros Hlen. split; [by apply logEvent_append |].
  unfold Audit.getAuditLog. rewrite logEvent_append by done. apply last_snoc.
Qed.

Lemma logEvent_fifo_witness :
  Audit.logEvent [] (Audit.mkEvent START None None None None) "t0" =
  [Audit.payload (Audit.mkEvent START None None None None) "t0"].
Proof.
  destruct (logEvent_fifo [] (Audit.mkEvent START None None None None) "t0")
    as [Heq _]; [simpl; lia |].
  exact Heq.
Defined.

Lemma run_length s events : length (Audit.run s events) <= 100.
Proof.
  unfold Audit.run.
  assert (Hinit : Audit.init s = Audit.slice_last Audit.MAX_LOGS (restored s)).
  { by destruct s. }
  rewrite Hinit, run_slice, length_slice_last. unfold Audit.MAX_LOGS. lia.
Qed.

(** X9: the log survives a reload: when the array mirrored to storage
    by the last [logEvent] is read back at start-up, the buffer starts
    as the log was, and logging goes on as if the page had stayed
    open. *)
Theorem audit_reload s events more :
  Audit.init (Audit.ParsedArray (Audit.run s events)) = Audit.run s events /\
  Audit.run (Audit.ParsedArray (Audit.run s events)) more =
  Audit.run s (events ++ more).
Proof.
  assert (Hinit :
    Audit.init (Audit.ParsedArray (Audit.run s events)) = Audit.run s events).
  { simpl. apply slice_last_short. apply run_length. }
  split; [done |].
  unfold Audit.run at 1. rewrite Hinit.
  unfold Audit.run. by rewrite fold_left_app.
Qed.

(** ** Guarded actions *)

(** X10: [safeGuard] on an action that returns hands back its value and
    leaves the log as the action left it; on an action that throws it
    never returns a value: the caller gets an [AppError] of type
    'unexpected' whose message is the friendly message (the default when
    none is given) whatever was thrown, and one ERROR entry by
    'anonymous' becomes the newest entry of the log, which keeps its cap
    of 100. *)
Theorem safeGuard_outcomes {T E : Type}
  (fn : list Audit.Entry -> Errors.Completion T E * list Audit.Entry)
  friendlyMessage buffer ts :
  length (fn buffer).2 <= 100 ->
  let out := Errors.safeGuard fn friendlyMessage buffer ts in
  (forall v, (fn buffer).1 = Errors.Returns v ->
     out = (inl v, (fn buffer).2)) /\
  (forall err, (fn buffer).1 = Errors.Throws err ->
     out.1 =
       inr (Errors.mkAppError "unexpected"
              (default "Something went wrong"%string friendlyMessage)) /\
     (exists entry,
        last out.2 = Some entry /\
        Audit.entry_action entry = ERROR /\
        Audit.entry_userId entry = "anonymous"%string /\
        Audit.entry_timestamp entry = ts) /\
     length out.2 <= 100 /\
     length out.2 = Nat.min 100 (S (length (fn buffer).2))).
Proof.
  intros Hlen. cbv zeta. unfold Errors.safeGuard.
  destruct (fn buffer) as [[v | err] buffer'] eqn:Hfn; cbn [fst snd] in *.
  - split; [by intros v' [= <-] | done].
  - split; [done |]. intros err' _.
    pose proof (logEvent_append buffer'
      (Audit.mkEvent ERROR None None (Some "anonymous"%string) None) ts Hlen)
      as Heq.
    assert (Hlast : last (Audit.logEvent buffer'
      (Audit.mkEvent ERROR None None (Some "anonymous"%string) None) ts) =
      Some (Audit.payload
        (Audit.mkEvent ERROR None None (Some "anonymous"%string) None) ts))
      by (rewrite Heq; apply last_snoc).
    split; [done |]. split; [eexists; split; [exact Hlast | done] |].
    rewrite Heq, length_app. cbn [length].
    destruct (Nat.ltb_spec (length buffer') 100); [lia |].
    rewrite length_drop. lia.
Qed.

Lemma safeGuard_outcomes_witness :
  (Errors.safeGuard (T := nat) (E := string)
     (fun buffer => (Errors.Throws "boom"%string, buffer)) None [] "t1").1
  = inr (Errors.mkAppError "unexpected" "Something went wrong").
Proof.
  destruct (safeGuard_outcomes (T := nat) (E := string)
              (fun buffer => (Errors.Throws "boom"%string, buffer))
              None [] "t1") as [_ Hthrow]; [simpl; lia |].
  destruct (Hthrow "boom"%string eq_refl) as [Herr _]. exact Herr.
Defined.

(** ** The search: scores *)

Lemma better_worst_finite ai p a :
  a ≠ NegInf -> a ≠ PosInf -> better ai p (Ai.score (Ai.worst ai p)) a = true.
Proof.
  intros Hn Hp. unfold better, Ai.worst.
  by destruct (player_eqb p ai), a.
Qed.

(** The score of a search for the non-integer [z + n/(n+d)]: the draw,
    or what [terminalScore] gave [k] plies further on. *)
Lemma minimaxFrac_value_range ai cw n d cells : forall z b p,
  length b = 9 -> length (Ai.availableMoves b) <= cells ->
  exists k,
    k <= cells /\
    (Ai.score (Ai.minimaxFrac_value ai cw cells z n d b p) = Fin 0 \/
     Ai.score (Ai.minimaxFrac_value ai cw cells z n d b p) =
       FinFrac (10 + z - Z.of_nat k) n d \/
     Ai.score (Ai.minimaxFrac_value ai cw cells z n d b p) =
       FinFrac (-11 - z + Z.of_nat k) d n).
Proof.
  induction cells as [|cells IH]; intros z b p Hlen Hcells;
    rewrite minimaxFrac_value_unfold;
    destruct (Ai.terminalScoreFrac ai cw b z n d) as [t|] eqn:Ht.
  1, 3: (exists 0; split; [lia |]; revert Ht; unfold Ai.terminalScoreFrac;
         destruct (strict_eq _ _);
           [intros [= <-]; right; left; cbn; f_equal; lia |];
         destruct (strict_eq _ _);
           [intros [= <-]; right; right; cbn; f_equal; lia |];
         destruct (every_truthy b); [intros [= <-]; by left | done]).
  - assert (Hopen : every_truthy b = false).
    { revert Ht. unfold Ai.terminalScoreFrac.
      destruct (strict_eq _ _); [done |]. destruct (strict_eq _ _); [done |].
      by destruct (every_truthy b). }
    destruct (every_truthy_false b Hopen) as (i & Hi & Hr).
    assert (Hin : i ∈ Ai.availableMoves b).
    { apply elem_of_availableMoves. split; [lia | done]. }
    destruct (Ai.availableMoves b); [by apply elem_of_nil in Hin | simpl in *; lia].
  - assert (Hopen : every_truthy b = false).
    { revert Ht. unfold Ai.terminalScoreFrac.
      destruct (strict_eq _ _); [done |]. destruct (strict_eq _ _); [done |].
      by destruct (every_truthy b). }
    destruct (every_truthy_false b Hopen) as (i & Hi & Hr).
    assert (Hin : i ∈ Ai.availableMoves b).
    { apply elem_of_availableMoves. split; [lia | done]. }
    assert (Hch : forall m, m ∈ Ai.availableMoves b ->
      exists k, k <= cells /\
        (Ai.score (Ai.minimaxFrac_value ai cw cells (z - 1) n d
                     (<[m:=Some p]> b) (other p)) = Fin 0 \/
         Ai.score (Ai.minimaxFrac_value ai cw cells (z - 1) n d
                     (<[m:=Some p]> b) (other p)) =
           FinFrac (10 + z - Z.of_nat (S k)) n d \/
         Ai.score (Ai.minimaxFrac_value ai cw cells (z - 1) n d
                     (<[m:=Some p]> b) (other p)) =
           FinFrac (-11 - z + Z.of_nat (S k)) d n)).
    { intros m Hm. pose proof (availableMoves_insert b m p Hlen Hm).
      destruct (IH (z - 1)%Z (<[m:=Some p]> b) (other p)) as (k & Hk & Hs);
        [by rewrite length_insert | lia |].
      exists k. split; [done |].
      destruct Hs as [-> | [-> | ->]]; [by left | right; left | right; right];
        f_equal; lia. }
    pose proof (pick_spec ai p
      (fun m => Ai.minimaxFrac_value ai cw cells (z - 1) n d
                  (<[m:=Some p]> b) (other p))
      (Ai.availableMoves b) (Ai.worst ai p)) as Hpick.
    cbv beta zeta in Hpick.
    destruct Hpick as [[_ Hall] | (l1 & m & l2 & Hms & -> & _)].
    + specialize (Hall i Hin). destruct (Hch i Hin) as (k & _ & Hs).
      rewrite better_worst_finite in Hall; [done | |];
        destruct Hs as [-> | [-> | ->]]; done.
    + cbn [Ai.score]. destruct (Hch m) as (k & Hk & Hs).
      { rewrite Hms. apply elem_of_app. right. by left. }
      exists (S k). split; [lia | done].
Qed.

(** X11: every result of [minimax] on a 9-cell array carries a finite
    score.  For a whole [depthLeft] it is 0 or lies in
    [10, 10 + depthLeft] or in [-10 - depthLeft, -10], and the two
    extreme values occur only on a board the injected [computeWinner]
    already decides, for the AI side and for the opponent.  For a
    non-integer [depthLeft], here one between -8 and 9 with a
    fractional part of at most 48 binary digits, the limit does not
    stop the search: the score is 0, or [10 + depthLeft - k] or
    [-10 - depthLeft + k] for an outcome [k] plies ahead, with [k] at
    most 9, so that it can lie between -10 and 10; and the count of
    cells does not matter once it covers the empty cells. *)
Theorem minimax_score_domain ai cw h r p :
  r < length h -> length (heap_read h r) = 9 ->
  (forall d, exists z,
     Ai.score (Ai.minimax ai cw d h r p).1 = Fin z /\
     (z = 0 \/ 10 <= z <= 10 + Z.of_nat d \/ -10 - Z.of_nat d <= z <= -10)%Z /\
     (z = 10 + Z.of_nat d -> cw (heap_read h r) = Some ai)%Z /\
     (z = -10 - Z.of_nat d -> cw (heap_read h r) = Some (other ai))%Z) /\
  (forall cells z n d,
     length (Ai.availableMoves (heap_read h r)) <= cells ->
     (-8 <= z <= 8)%Z -> short_fraction n d ->
     (exists k,
        k <= 9 /\
        (Ai.score (Ai.minimaxFrac ai cw cells z n d h r p).1 = Fin 0 \/
         Ai.score (Ai.minimaxFrac ai cw cells z n d h r p).1 =
           FinFrac (10 + z - Z.of_nat k) n d \/
         Ai.score (Ai.minimaxFrac ai cw cells z n d h r p).1 =
           FinFrac (-11 - z + Z.of_nat k) d n)) /\
     Ai.minimaxFrac ai cw cells z n d h r p =
     Ai.minimaxFrac ai cw 9 z n d h r p).
Proof.
  intros Hr Hlen. split.
  - intros d. rewrite minimax_frame by done. cbn [fst].
    by apply minimax_value_range.
  - intros cells z n d Hcells _ _. rewrite !minimaxFrac_frame by done.
    cbn [fst].
    rewrite (minimaxFrac_value_cells ai cw n d cells 9)
      by (done || apply availableMoves_bound).
    split; [| done].
    apply minimaxFrac_value_range; [done | apply availableMoves_bound].
Qed.

Lemma minimax_score_domain_witness :
  (exists z,
     Ai.score (Ai.minimax X Hook.computeWinner 3 [threat_board] 0 X).1 = Fin z /\
     (z = 0 \/ 10 <= z <= 10 + 3 \/ -10 - 3 <= z <= -10)%Z) /\
  Ai.minimaxFrac X Hook.computeWinner 12 1 1 1 [threat_board] 0 X =
  Ai.minimaxFrac X Hook.computeWinner 9 1 1 1 [threat_board] 0 X.
Proof.
  destruct (minimax_score_domain X Hook.computeWinner [threat_board] 0 X)
    as [Hwhole Hpart].
  - simpl. lia.
  - reflexivity.
  - split.
    + destruct (Hwhole 3) as (z & Hz & Hrange & _).
      exists z. split; [exact Hz | exact Hrange].
    + apply (Hpart 12).
      * vm_compute. lia.
      * lia.
      * exists 1. split; [lia | reflexivity].
Defined.

(** ** The search: winning at once *)

Lemma chooseBestMove_search h r ai opts :
  length (heap_read h r) = 9 ->
  Ai.strategy opts ≠ "quick"%string ->
  exists d,
    effective_limit (Ai.depth opts) = S d /\
    (Ai.chooseBestMove h (VArray r) ai opts).1 =
    Ai.move (Ai.minimax_value ai (Ai.computeWinner opts) (S d)
               (heap_read h r) ai).
Proof.
  intros Hlen Hs. rewrite chooseBestMove_array by done.
  destruct (String.eqb_spec (Ai.strategy opts) "quick"); [done |].
  destruct (effective_limit_succ (Ai.depth opts)) as [d Hd].
  exists d. by rewrite Hd.
Qed.

Lemma score_of_win ai cw d (b : board) p :
  cw b = Some ai ->
  Ai.score (Ai.minimax_value ai cw d b p) = Fin (10 + Z.of_nat d).
Proof.
  intros Hw. rewrite minimax_value_unfold. unfold Ai.terminalScore.
  rewrite Hw. assert (H : strict_eq (Some ai) (Some ai) = true) by (by destruct ai).
  by rewrite H.
Qed.

Lemma score_of_loss ai cw d (b : board) p :
  cw b = Some (other ai) ->
  Ai.score (Ai.minimax_value ai cw d b p) = Fin (-10 - Z.of_nat d).
Proof.
  intros Hw. rewrite minimax_value_unfold. unfold Ai.terminalScore.
  rewrite Hw. change (Ai.human ai) with (other ai).
  assert (H1 : strict_eq (Some (other ai)) (Some ai) = false) by (by destruct ai).
  assert (H2 : strict_eq (Some (other ai)) (Some (other ai)) = true)
    by (by destruct ai).
  by rewrite H1, H2.
Qed.

(** X12: when the AI side can complete a line at once, the minimax
    strategy does it, at every depth: on a 9-cell board without a
    winner, if marking some empty cell makes the injected
    [computeWinner] name the AI side, [chooseBestMove] returns the
    lowest such cell. *)
Theorem minimax_takes_immediate_win h r ai opts m0 :
  length (heap_read h r) = 9 ->
  Ai.strategy opts ≠ "quick"%string ->
  let b := heap_read h r in
  let cw := Ai.computeWinner opts in
  cw b = None ->
  m0 < 9 -> read b m0 = None -> cw (<[m0:=Some ai]> b) = Some ai ->
  exists m,
    (Ai.chooseBestMove h (VArray r) ai opts).1 = Z.of_nat m /\
    m < 9 /\ read b m = None /\
    cw (<[m:=Some ai]> b) = Some ai /\
    forall m', m' < m -> read b m' = None ->
      cw (<[m':=Some ai]> b) ≠ Some ai.
Proof.
  intros Hlen Hs. cbv zeta. intros Hw Hm0 Hcell0 Hwin0.
  destruct (chooseBestMove_search h r ai opts Hlen Hs) as (d & _ & ->).
  set (b := heap_read h r) in *. set (cw := Ai.computeWinner opts) in *.
  assert (Ht : Ai.terminalScore ai cw b (S d) = None).
  { apply (terminalScore_open _ _ _ _ m0); (done || lia). }
  destruct (minimax_value_best ai cw d b ai Hlen Ht)
    as (m & Hm & -> & Hbest & Hlower).
  cbn [Ai.move]. exists m. split; [done |].
  pose proof Hm as Hm'. apply elem_of_availableMoves in Hm' as [Hlt Hcell].
  split; [done |]. split; [done |].
  assert (Hin0 : m0 ∈ Ai.availableMoves b) by (by apply elem_of_availableMoves).
  unfold better in Hbest, Hlower. rewrite player_eqb_refl in Hbest, Hlower.
  destruct (minimax_value_range ai cw d (<[m:=Some ai]> b) (other ai))
    as (z & Hz & Hrange & Htop & _); [by rewrite length_insert |].
  split.
  - apply Htop. specialize (Hbest m0 Hin0).
    rewrite (score_of_win ai cw d (<[m0:=Some ai]> b)) in Hbest by done.
    rewrite Hz in Hbest. simpl in Hbest. apply Z.ltb_ge in Hbest. lia.
  - intros m' Hlt' Hcell' Hwin'.
    assert (Hin' : m' ∈ Ai.availableMoves b).
    { apply elem_of_availableMoves. split; [lia | done]. }
    specialize (Hlower m' Hin' Hlt').
    rewrite (score_of_win ai cw d (<[m':=Some ai]> b)) in Hlower by done.
    rewrite Hz in Hlower. simpl in Hlower. apply Z.ltb_lt in Hlower. lia.
Qed.

Lemma minimax_takes_immediate_win_witness :
  exists m,
    (Ai.chooseBestMove
       [[Some X; Some X; None; None; Some O; None; None; Some O; None]]
       (VArray 0) X (hookOpts "minimax" (Some (Num 1)))).1 = Z.of_nat m /\
    m < 9 /\
    Hook.computeWinner
      (<[m:=Some X]>
         [Some X; Some X; None; None; Some O; None; None; Some O; None])
    = Some X.
Proof.
  destruct (minimax_takes_immediate_win
              [[Some X; Some X; None; None; Some O; None; None; Some O; None]]
              0 X (hookOpts "minimax" (Some (Num 1))) 2)
    as (m & Hmove & Hlt & _ & Hwin & _);
    [reflexivity | discriminate | reflexivity | lia | reflexivity
    | reflexivity |].
  exists m. split; [exact Hmove |]. split; [exact Hlt | exact Hwin].
Defined.

(** ** The search with the hook's winner test *)

Lemma complete_transfer (b b' : board) q l :
  complete b q l ->
  (forall i, read b i = Some q -> read b' i = Some q) ->
  complete b' q l.
Proof. intros (H1 & H2 & H3) Hsub. repeat split; by apply Hsub. Qed.

Lemma computeWinner_of_complete (b : board) q l :
  l ∈ Hook.lines -> complete b q l -> Hook.computeWinner b ≠ None.
Proof.
  intros Hl Hc Hnone. unfold Hook.computeWinner in Hnone.
  rewrite scan_lines_None in Hnone. by apply (Hnone l q).
Qed.

(** A mark placed on a board without a winner can only make the side
    that placed it win. *)
Lemma computeWinner_after_move (b : board) m p q :
  Hook.computeWinner b = None ->
  Hook.computeWinner (<[m:=Some p]> b) = Some q -> q = p.
Proof.
  intros Hnone Hq.
  destruct (player_eqb q p) eqn:Heq; [by apply player_eqb_eq in Heq |].
  assert (Hne : q ≠ p) by (intros ->; by rewrite player_eqb_refl in Heq).
  exfalso. apply scan_lines_Some in Hq as (l & Hl & Hc).
  apply (computeWinner_of_complete b q l Hl); [| done].
  apply (complete_transfer _ _ _ _ Hc). intros i Hi.
  destruct (decide (m = i)) as [<- | Hmi]; [| by rewrite read_insert_ne in Hi].
  destruct (decide (m < length b)) as [Hlt | Hge].
  - rewrite read_insert_eq in Hi by done. congruence.
  - by rewrite list_insert_ge in Hi by lia.
Qed.

Lemma read_insert (b : board) m v i :
  m < length b ->
  read (<[m:=v]> b) i = if decide (m = i) then v else read b i.
Proof.
  intros Hm. destruct (decide (m = i)) as [<- | Hne].
  - by apply read_insert_eq.
  - by apply read_insert_ne.
Qed.

(** X13: with a depth limit of 1 the search sees wins of the AI side
    only: on a 9-cell board without a winner on which no single mark of
    the AI side completes a line, [chooseBestMove] with the minimax
    strategy and the hook's [computeWinner] returns the first empty
    cell, whatever the opponent threatens. *)
Theorem minimax_depth1_first_empty h r ai s depth :
  length (heap_read h r) = 9 ->
  s ≠ "quick"%string ->
  Ai.clampDepth (default (Num 9) depth) = Ai.Whole 1 ->
  let b := heap_read h r in
  Hook.computeWinner b = None ->
  (exists i, i < 9 /\ read b i = None) ->
  (forall m, m < 9 -> read b m = None ->
     Hook.computeWinner (<[m:=Some ai]> b) ≠ Some ai) ->
  exists m,
    (Ai.chooseBestMove h (VArray r) ai (hookOpts s depth)).1 = Z.of_nat m /\
    m < 9 /\ read b m = None /\
    forall m', m' < 9 -> read b m' = None -> m <= m'.
Proof.
  intros Hlen Hs Hd. cbv zeta. intros Hw (i0 & Hi0 & Hcell0) Hnowin.
  destruct (chooseBestMove_search h r ai (hookOpts s depth) Hlen Hs)
    as (d & Hdepth & ->).
  cbn [Ai.depth Ai.computeWinner hookOpts] in *.
  pose proof (clampDepth_limit depth) as Hlimit. rewrite Hd in Hlimit.
  assert (d = 0) as -> by lia. clear Hdepth Hlimit.
  set (b := heap_read h r) in *.
  assert (Ht : Ai.terminalScore ai Hook.computeWinner b 1 = None).
  { apply (terminalScore_open _ _ _ _ i0); (done || lia). }
  destruct (minimax_value_best ai Hook.computeWinner 0 b ai Hlen Ht)
    as (m & Hm & -> & _ & Hlower).
  cbn [Ai.move]. exists m. split; [done |].
  pose proof Hm as Hm'. apply elem_of_availableMoves in Hm' as [Hlt Hcell].
  split; [done |]. split; [done |].
  assert (Hzero : forall m', m' < 9 -> read b m' = None ->
    Ai.score (Ai.minimax_value ai Hook.computeWinner 0
                (<[m':=Some ai]> b) (other ai)) = Fin 0).
  { intros m' Hlt' Hcell'. rewrite minimax_value_unfold.
    unfold Ai.terminalScore. change (Ai.human ai) with (other ai).
    destruct (Hook.computeWinner (<[m':=Some ai]> b)) as [q|] eqn:Hq.
    - pose proof (computeWinner_after_move _ _ _ _ Hw Hq) as ->.
      by destruct (Hnowin m' Hlt' Hcell').
    - simpl. by destruct (every_truthy _). }
  intros m' Hlt' Hcell'. destruct (decide (m <= m')) as [| Hgt]; [done |].
  exfalso.
  assert (Hin' : m' ∈ Ai.availableMoves b) by (by apply elem_of_availableMoves).
  specialize (Hlower m' Hin' ltac:(lia)).
  unfold better in Hlower. rewrite player_eqb_refl in Hlower.
  rewrite !Hzero in Hlower by done. done.
Qed.

Lemma minimax_depth1_first_empty_witness :
  exists m,
    (Ai.chooseBestMove [threat_board] (VArray 0) X
       (hookOpts "minimax" (Some (Num 1)))).1 = Z.of_nat m /\
    m < 9 /\ read threat_board m = None /\
    forall m', m' < 9 -> read threat_board m' = None -> m <= m'.
Proof.
  apply (minimax_depth1_first_empty [threat_board] 0 X "minimax"
           (Some (Num 1))).
  - reflexivity.
  - discriminate.
  - reflexivity.
  - reflexivity.
  - exists 0. split; [lia | reflexivity].
  - intros m Hm Hcell.
    do 9 (destruct m as [|m]; [try discriminate Hcell; vm_compute; discriminate |]).
    lia.
Defined.

(** X14: with a depth limit of at least 2 the search blocks: on a
    9-cell board without a winner on which the AI side cannot complete a
    line at once and the opponent can, at exactly one cell,
    [chooseBestMove] with the minimax strategy and the hook's
    [computeWinner] returns that cell. *)
Theorem minimax_blocks_single_threat h r ai s depth c :
  length (heap_read h r) = 9 ->
  s ≠ "quick"%string ->
  Ai.clampDepth (default (Num 9) depth) ≠ Ai.Whole 1 ->
  let b := heap_read h r in
  Hook.computeWinner b = None ->
  (forall m, m < 9 -> read b m = None ->
     Hook.computeWinner (<[m:=Some ai]> b) ≠ Some ai) ->
  c < 9 -> read b c = None ->
  Hook.computeWinner (<[c:=Some (other ai)]> b) = Some (other ai) ->
  (forall m, m < 9 -> read b m = None ->
     Hook.computeWinner (<[m:=Some (other ai)]> b) = Some (other ai) ->
     m = c) ->
  (Ai.chooseBestMove h (VArray r) ai (hookOpts s depth)).1 = Z.of_nat c.
Proof.
  intros Hlen Hs Hd. cbv zeta. intros Hw Hnowin Hc Hcellc Hthreat Hunique.
  destruct (chooseBestMove_search h r ai (hookOpts s depth) Hlen Hs)
    as (d1 & Hdepth & ->).
  cbn [Ai.depth Ai.computeWinner hookOpts] in *.
  pose proof (clampDepth_limit depth) as Hlimit.
  destruct d1 as [|d].
  { destruct (Ai.clampDepth _) as [k | z n' d'];
      [by subst k; rewrite Hdepth in Hd | lia]. }
  clear Hdepth Hd Hlimit.
  set (b := heap_read h r) in *. set (cw := Hook.computeWinner) in *.
  set (opp := other ai) in *.
  assert (Hopp : opp ≠ ai) by apply other_neq.
  (* a move of the AI side never decides the board *)
  assert (Hopen : forall m, m < 9 -> read b m = None ->
            cw (<[m:=Some ai]> b) = None).
  { intros m Hm Hcell. destruct (cw (<[m:=Some ai]> b)) as [q|] eqn:Hq; [| done].
    pose proof (computeWinner_after_move _ _ _ _ Hw Hq) as ->.
    by destruct (Hnowin m Hm Hcell). }
  (* any other move loses at once *)
  assert (Hlose : forall m, m < 9 -> read b m = None -> m ≠ c ->
    Ai.score (Ai.minimax_value ai cw (S d) (<[m:=Some ai]> b) opp)
    = Fin (-10 - Z.of_nat d)).
  { intros m Hm Hcell Hmc.
    set (b1 := <[m:=Some ai]> b).
    assert (Hlen1 : length b1 = 9) by (unfold b1; by rewrite length_insert).
    assert (Hc1 : read b1 c = None) by (unfold b1; by rewrite read_insert_ne).
    assert (Ht1 : Ai.terminalScore ai cw b1 (S (S d) - 1) = None).
    { apply (terminalScore_open _ _ _ _ c); [by apply Hopen | lia | done]. }
    replace (S (S d) - 1) with (S d) in Ht1 by lia.
    destruct (minimax_value_best ai cw d b1 opp Hlen1 Ht1)
      as (m2 & Hm2 & -> & Hbest & _).
    cbn [Ai.score].
    assert (Hwin2 : cw (<[c:=Some opp]> b1) = Some opp).
    { destruct (cw (<[c:=Some opp]> b1)) as [q|] eqn:Hq.
      - f_equal. apply (computeWinner_after_move b1 c); [by apply Hopen | done].
      - exfalso. apply scan_lines_Some in Hthreat as (l & Hl & Hcomp).
        apply (computeWinner_of_complete (<[c:=Some opp]> b1) opp l Hl);
          [| done].
        apply (complete_transfer _ _ _ _ Hcomp). intros i.
        rewrite !read_insert by lia. unfold b1.
        destruct (decide (c = i)); [done |].
        rewrite read_insert by lia.
        destruct (decide (m = i)) as [<- |]; [congruence | done]. }
    assert (Hinc : c ∈ Ai.availableMoves b1)
      by (apply elem_of_availableMoves; done).
    specialize (Hbest c Hinc). unfold better in Hbest.
    assert (Hne : player_eqb opp ai = false) by (unfold opp; by destruct ai).
    rewrite Hne in Hbest.
    rewrite (score_of_loss ai cw d (<[c:=Some opp]> b1)) in Hbest by done.
    destruct (minimax_value_range ai cw d (<[m2:=Some opp]> b1) (other opp))
      as (z & Hz & Hrange & _); [by rewrite length_insert |].
    rewrite Hz in Hbest |- *. simpl in Hbest. apply Z.ltb_ge in Hbest.
    f_equal. lia. }
  (* the blocking move does not *)
  assert (Hblock : exists z,
    Ai.score (Ai.minimax_value ai cw (S d) (<[c:=Some ai]> b) opp) = Fin z /\
    (-10 - Z.of_nat d < z)%Z).
  { set (bc := <[c:=Some ai]> b).
    assert (Hlenc : length bc = 9) by (unfold bc; by rewrite length_insert).
    assert (Hwc : cw bc = None) by (by apply Hopen).
    destruct (every_truthy bc) eqn:Hfull.
    - exists 0%Z. split; [| lia]. rewrite minimax_value_unfold.
      unfold Ai.terminalScore. fold cw. rewrite Hwc, Hfull.
      change (Ai.human ai) with (other ai). by destruct ai.
    - assert (Htc : Ai.terminalScore ai cw bc (S d) = None).
      { unfold Ai.terminalScore. by rewrite Hwc, Hfull. }
      destruct (minimax_value_best ai cw d bc opp Hlenc Htc)
        as (m2 & Hm2 & -> & _).
      cbn [Ai.score].
      destruct (minimax_value_range ai cw d (<[m2:=Some opp]> bc) (other opp))
        as (z & Hz & Hrange & _ & Hbottom); [by rewrite length_insert |].
      exists z. split; [done |].
      destruct (decide (z = -10 - Z.of_nat d)%Z) as [Heq | Hne]; [| lia].
      exfalso. specialize (Hbottom Heq). fold opp in Hbottom.
      apply elem_of_availableMoves in Hm2 as [Hlt2 Hcell2].
      unfold bc in Hcell2. rewrite read_insert in Hcell2 by lia.
      destruct (decide (c = m2)) as [| Hcm]; [done |].
      assert (Hm2c : m2 = c); [| congruence].
      apply Hunique; [done | done |].
      destruct (cw (<[m2:=Some opp]> b)) as [q|] eqn:Hq.
      + f_equal. by apply (computeWinner_after_move b m2).
      + exfalso. apply scan_lines_Some in Hbottom as (l & Hl & Hcomp).
        apply (computeWinner_of_complete (<[m2:=Some opp]> b) opp l Hl);
          [| done].
        apply (complete_transfer _ _ _ _ Hcomp). intros i. unfold bc.
        rewrite !read_insert by (rewrite ?length_insert; lia).
        destruct (decide (m2 = i)); [done |].
        destruct (decide (c = i)); [congruence | done]. }
  assert (Ht : Ai.terminalScore ai cw b (S (S d)) = None).
  { apply (terminalScore_open _ _ _ _ c); (done || lia). }
  destruct (minimax_value_best ai cw (S d) b ai Hlen Ht)
    as (m & Hm & -> & Hbest & _).
  cbn [Ai.move]. f_equal.
  destruct (decide (m = c)) as [| Hmc]; [done |]. exfalso.
  apply elem_of_availableMoves in Hm as [Hlt Hcell].
  assert (Hinc : c ∈ Ai.availableMoves b) by (by apply elem_of_availableMoves).
  specialize (Hbest c Hinc). unfold better in Hbest.
  rewrite player_eqb_refl in Hbest. fold opp in Hbest.
  rewrite Hlose in Hbest by done.
  destruct Hblock as (z & Hz & Hgt). rewrite Hz in Hbest.
  simpl in Hbest. apply Z.ltb_ge in Hbest. lia.
Qed.

Lemma minimax_blocks_single_threat_witness :
  (Ai.chooseBestMove [block_board] (VArray 0) X
     (hookOpts "minimax" (Some (Num 2)))).1 = 2%Z.
Proof.
  apply (minimax_blocks_single_threat [block_board] 0 X "minimax"
           (Some (Num 2)) 2).
  - reflexivity.
  - discriminate.
  - vm_compute. discriminate.
  - reflexivity.
  - intros m Hm Hcell.
    do 9 (destruct m as [|m]; [try discriminate Hcell; vm_compute; discriminate |]).
    lia.
  - lia.
  - reflexivity.
  - reflexivity.
  - intros m Hm Hcell Hwin.
    do 9 (destruct m as [|m];
          [try discriminate Hcell; try reflexivity;
           vm_compute in Hwin; discriminate Hwin |]).
    lia.
Defined.

(** ** The selector treats the two sides alike *)

Lemma swap_marks_insert (b : board) m p :
  <[m:=Some (other p)]> (swap_marks b) = swap_marks (<[m:=Some p]> b).
Proof. unfold swap_marks. by rewrite list_fmap_insert. Qed.

Lemma every_truthy_swap (b : board) : every_truthy (swap_marks b) = every_truthy b.
Proof.
  unfold every_truthy, swap_marks. induction b as [|c b IH]; [done |].
  simpl. by rewrite truthy_swap, IH.
Qed.

Lemma availableMoves_swap (b : board) :
  Ai.availableMoves (swap_marks b) = Ai.availableMoves b.
Proof.
  unfold Ai.availableMoves. induction (seq 0 9) as [|i l IH]; [done |].
  simpl. by rewrite read_swap_marks, truthy_swap, IH.
Qed.

Lemma player_eqb_other_other p q : player_eqb (other p) (other q) = player_eqb p q.
Proof. by destruct p, q. Qed.

Lemma terminalScore_swap ai (b : board) d :
  Ai.terminalScore (other ai) Hook.computeWinner (swap_marks b) d =
  Ai.terminalScore ai Hook.computeWinner b d.
Proof.
  unfold Ai.terminalScore, Hook.computeWinner.
  rewrite scan_lines_swap, every_truthy_swap.
  change (Some (other ai)) with (option_map other (Some ai)).
  change (Some (Ai.human (other ai)))
    with (option_map other (Some (Ai.human ai))).
  by rewrite !strict_eq_swap.
Qed.

Lemma minimax_value_swap ai d : forall b p,
  Ai.minimax_value (other ai) Hook.computeWinner d (swap_marks b) (other p) =
  Ai.minimax_value ai Hook.computeWinner d b p.
Proof.
  induction d as [|d IH]; intros b p;
    rewrite !minimax_value_unfold, terminalScore_swap;
    destruct (Ai.terminalScore ai Hook.computeWinner b _); try done.
  rewrite availableMoves_swap.
  assert (Hworst : Ai.worst (other ai) (other p) = Ai.worst ai p).
  { unfold Ai.worst. by rewrite player_eqb_other_other. }
  rewrite Hworst. generalize (Ai.worst ai p) as best.
  induction (Ai.availableMoves b) as [|m ms IHms]; intros best; [done |].
  simpl. rewrite swap_marks_insert, IH.
  assert (Hkeep : forall best res,
    Ai.keep (other ai) (other p) best res m = Ai.keep ai p best res m).
  { intros. unfold Ai.keep. by rewrite player_eqb_other_other. }
  rewrite Hkeep. apply IHms.
Qed.

Lemma quickHeuristic_swap (b : board) :
  Ai.quickHeuristic (swap_marks b) = Ai.quickHeuristic b.
Proof.
  unfold Ai.quickHeuristic, Ai.first_empty.
  by rewrite !read_swap_marks, !truthy_swap.
Qed.

(** X15: the selector plays alike for X and for O: with the hook's
    [computeWinner], exchanging the marks on the board and the side
    the AI plays leaves the answer of [chooseBestMove] unchanged, for
    every board, strategy and depth. *)
Theorem chooseBestMove_swap h r h' r' ai s depth :
  heap_read h' r' = swap_marks (heap_read h r) ->
  (Ai.chooseBestMove h' (VArray r') (other ai) (hookOpts s depth)).1 =
  (Ai.chooseBestMove h (VArray r) ai (hookOpts s depth)).1.
Proof.
  intros Hswap.
  assert (Hlen : length (heap_read h' r') = length (heap_read h r)).
  { rewrite Hswap. apply length_fmap. }
  destruct (decide (length (heap_read h r) = 9)) as [H9 | H9].
  - rewrite !chooseBestMove_array by congruence.
    cbn [hookOpts Ai.strategy Ai.depth Ai.computeWinner].
    destruct (String.eqb s "quick"); cbn [fst]; rewrite Hswap.
    + apply quickHeuristic_swap.
    + f_equal. apply minimax_value_swap.
  - rewrite !chooseBestMove_not_board; [done | |];
      intros ? [= <-]; congruence.
Qed.

Lemma chooseBestMove_swap_witness :
  (Ai.chooseBestMove [swap_marks threat_board] (VArray 0) O
     (hookOpts "minimax" None)).1 =
  (Ai.chooseBestMove [threat_board] (VArray 0) X
     (hookOpts "minimax" None)).1.
Proof.
  apply (chooseBestMove_swap [threat_board] 0 [swap_marks threat_board] 0 X).
  reflexivity.
Defined.

(** X16: asking twice gives the same answer: a second call of
    [chooseBestMove] with the same arguments, made on the heap the first
    call left, returns the same move, and the caller's array still holds
    the same cells after both calls. *)
Theorem chooseBestMove_twice h board ai opts :
  let first := Ai.chooseBestMove h board ai opts in
  let second := Ai.chooseBestMove first.2 board ai opts in
  second.1 = first.1 /\
  forall r, board = VArray r -> heap_read second.2 r = heap_read h r.
Proof.
  cbv zeta. destruct board as [r |]; [| done].
  destruct (decide (length (heap_read h r) = 9)) as [H9 | H9].
  - assert (Hr : r < length h).
    { unfold heap_read in H9. destruct (h !! r) as [b|] eqn:Hb; [| done].
      by apply lookup_lt_Some in Hb. }
    assert (Hkeep : forall k, heap_read (h ++ k) r = heap_read h r).
    { intros k. unfold heap_read. by rewrite lookup_app_l. }
    rewrite (chooseBestMove_array h) by done.
    destruct (String.eqb (Ai.strategy opts) "quick") eqn:Hq; cbn [fst snd].
    + rewrite chooseBestMove_array, Hq by done. split; [done |].
      by intros ? [= <-].
    + rewrite chooseBestMove_array, Hq by (by rewrite Hkeep).
      cbn [fst snd]. rewrite Hkeep. split; [done |].
      intros ? [= <-]. by rewrite <- app_assoc, Hkeep.
  - rewrite (chooseBestMove_not_board h) by (intros ? [= <-]; done).
    cbn [fst snd].
    rewrite chooseBestMove_not_board by (intros ? [= <-]; done).
    split; [done |]. by intros ? [= <-].
Qed.

(** ** Keyboard navigation *)

(** X17: [rc] labels the cells 0..8 with rows and columns 1..3, and the
    label identifies the cell. *)
Theorem rc_labels_cell index :
  index < 9 ->
  let '(row, col) := BoardUi.rc index in
  1 <= row <= 3 /\ 1 <= col <= 3 /\ 3 * (row - 1) + (col - 1) = index.
Proof.
  intros Hi. unfold BoardUi.rc.
  do 9 (destruct index as [|index]; [vm_compute; lia |]). lia.
Qed.

Lemma rc_labels_cell_witness :
  let '(row, col) := BoardUi.rc 5 in
  1 <= row <= 3 /\ 1 <= col <= 3 /\ 3 * (row - 1) + (col - 1) = 5.
Proof. apply (rc_labels_cell 5). lia. Defined.

(** X18: from a cell of the grid an arrow key aims at the square one
    row or one column away and stops at the border: the square aimed at
    is one of the cells 0..8, the vertical keys keep the column and the
    horizontal keys keep the row.  The handler focuses that square when
    its ref holds an element and does nothing otherwise; with no ref
    attached no arrow key has an effect.  Arrow keys never play a
    cell. *)
Theorem arrows_stay_in_grid current disabled z key :
  (0 <= z <= 8)%Z ->
  key = BoardUi.ArrowUp \/ key = BoardUi.ArrowDown \/
  key = BoardUi.ArrowLeft \/ key = BoardUi.ArrowRight ->
  exists n,
    BoardUi.handleKeyDown current disabled (Some (Num z)) key =
      (if current n then BoardUi.Focus n else BoardUi.NoEffect) /\
    n < 9 /\
    let '(row, col) := BoardUi.rc (Z.to_nat z) in
    let '(row', col') := BoardUi.rc n in
    match key with
    | BoardUi.ArrowUp => col' = col /\ row' = Nat.max 1 (row - 1)
    | BoardUi.ArrowDown => col' = col /\ row' = Nat.min 3 (row + 1)
    | BoardUi.ArrowLeft => row' = row /\ col' = Nat.max 1 (col - 1)
    | BoardUi.ArrowRight => row' = row /\ col' = Nat.min 3 (col + 1)
    | _ => False
    end.
Proof.
  intros Hz Hkey.
  assert (Hcases : (z = 0 \/ z = 1 \/ z = 2 \/ z = 3 \/ z = 4 \/ z = 5 \/
                    z = 6 \/ z = 7 \/ z = 8)%Z) by lia.
  destruct Hkey as [-> | [-> | [-> | ->]]];
    repeat (destruct Hcases as [-> | Hcases]);
    try subst z;
    match goal with
    | |- exists n, BoardUi.handleKeyDown _ _ ?i ?k = _ /\ _ =>
        let e := eval vm_compute in
          (BoardUi.handleKeyDown (fun _ => true) false i k) in
        match e with
        | BoardUi.Focus ?m => exists m
        end
    end;
    (split; [reflexivity |]); vm_compute;
    (split; [lia | split; reflexivity]).
Qed.

Lemma arrows_stay_in_grid_witness :
  BoardUi.handleKeyDown (fun i => bool_decide (i = 2)) false (Some (Num 2))
    BoardUi.ArrowRight = BoardUi.Focus 2 /\
  BoardUi.handleKeyDown (fun _ => false) false (Some (Num 4))
    BoardUi.ArrowUp = BoardUi.NoEffect.
Proof.
  split.
  - destruct (arrows_stay_in_grid (fun i => bool_decide (i = 2)) false 2
                BoardUi.ArrowRight) as (n & Heq & Hn & _); [lia | tauto |].
    rewrite Heq.
    assert (Hf : BoardUi.Focus 2 =
                 if bool_decide (n = 2) then BoardUi.Focus n
                 else BoardUi.NoEffect).
    { rewrite <- Heq. reflexivity. }
    by destruct (bool_decide (n = 2)); [injection Hf as <- |].
  - destruct (arrows_stay_in_grid (fun _ => false) false 4
                BoardUi.ArrowUp) as (n & Heq & _); [lia | tauto |].
    exact Heq.
Defined.

(** X19: the handler plays a cell only on Enter or Space, only when the
    board is not disabled, and only the cell whose index the target
    carries; a target without an index or with a negative one plays
    nothing. *)
Theorem keyboard_play_guarded current disabled idxAttr key index :
  BoardUi.handleKeyDown current disabled idxAttr key = BoardUi.Play index ->
  disabled = false /\
  (key = BoardUi.Enter \/ key = BoardUi.Space) /\
  idxAttr = Some index /\ js_lt index 0 = false.
Proof.
  unfold BoardUi.handleKeyDown, BoardUi.focus.
  destruct idxAttr as [[|z|z n d| |] |]; simpl; try done.
  - destruct key, disabled; simpl; intros [= <-] || intros [=]; auto.
  - destruct (Z.ltb_spec z 0); [done |].
    destruct key, disabled; simpl;
      repeat match goal with
             | |- context [if ?c then _ else _] => destruct c
             end;
      intros [= <-] || intros [=];
      (repeat split; auto; by apply Z.ltb_ge).
  - destruct (Z.ltb_spec z 0); [done |].
    destruct key, disabled; simpl; intros [= <-] || intros [=];
      (repeat split; auto; by apply Z.ltb_ge).
  - destruct key, disabled; simpl; intros [= <-] || intros [=]; auto.
Qed.

Lemma keyboard_play_guarded_witness :
  false = false /\
  (BoardUi.Enter = BoardUi.Enter \/ BoardUi.Enter = BoardUi.Space) /\
  Some (Num 4) = Some (Num 4) /\ js_lt (Num 4) 0 = false.
Proof.
  apply (keyboard_play_guarded (fun _ => true) false (Some (Num 4))
           BoardUi.Enter (Num 4)).
  reflexivity.
Defined.

(** ** The hook with the AI opponent *)

Lemma commit_app c us vs :
  HookAi.commit c (us ++ vs) = HookAi.commit (HookAi.commit c us) vs.
Proof. unfold HookAi.commit. apply fold_left_app. Qed.

Lemma updateOutcome_updates (nextBoard : board) st thinking :
  let c := HookAi.commit (st, thinking) (HookAi.updateOutcome nextBoard).1 in
  let out := Hook.updateOutcome nextBoard (Hook.scores st) in
  c = (Hook.mkState (Hook.st_board st) (Hook.currentPlayer st)
         out.1.1 out.1.2 out.2, thinking) /\
  (HookAi.updateOutcome nextBoard).2 = out.1.
Proof.
  cbv zeta. unfold HookAi.updateOutcome, Hook.updateOutcome.
  destruct (Hook.computeWinner nextBoard) as [w|]; [done |].
  destruct (every_truthy nextBoard); [done |].
  split; [| done]. simpl. by destruct st.
Qed.

(** X20: the hook with the AI opponent refines the plain hook: called in
    the render whose state is the committed one, its [makeMove] returns
    the same flag, logs the same event and commits the same next state
    as the plain [makeMove], in either mode; in Human vs Human mode it
    never starts a timer and never touches [isAiThinking]. *)
Theorem makeMove_ai_refines env index thinking :
  let r := HookAi.makeMove env index in
  let plain := Hook.makeMove (HookAi.state env) index in
  r.1.1.1 = plain.1.1 /\
  r.1.2 = plain.2 /\
  (HookAi.commit (HookAi.state env, thinking) r.1.1.2).1 = plain.1.2 /\
  (HookAi.mode env = HookAi.HUMAN_VS_HUMAN ->
     r.2 = None /\
     (HookAi.commit (HookAi.state env, thinking) r.1.1.2).2 = thinking).
Proof.
  cbv zeta. unfold HookAi.makeMove, Hook.makeMove.
  set (st := HookAi.state env).
  destruct (truthy (Hook.winner st) || Hook.isDraw st); [done |].
  destruct index as [n |]; [| done].
  destruct (js_lt n 0 || js_gt n 8); [done |].
  destruct (truthy (Hook.index_read (Hook.st_board st) n)); [done |].
  set (nb := Hook.index_set (Hook.st_board st) n (Some (Hook.currentPlayer st))).
  pose proof (updateOutcome_updates nb
    (Hook.mkState nb (Hook.currentPlayer st) (Hook.winner st)
       (Hook.isDraw st) (Hook.scores st)) thinking) as [Hc Hout].
  cbv zeta in Hc.
  cbn [Hook.scores Hook.st_board Hook.currentPlayer] in Hc, Hout.
  destruct (HookAi.updateOutcome nb) as [ups [w d]] eqn:Hups.
  cbn [fst snd] in Hc, Hout.
  destruct (Hook.updateOutcome nb (Hook.scores st)) as [[w' d'] sc] eqn:Hplain.
  cbn [fst snd] in Hc, Hout. injection Hout as -> ->.
  cbn [fst snd]. split; [done |]. split; [done |].
  assert (Hstep : HookAi.commit (st, thinking) ([HookAi.SetBoard nb] ++ ups) =
    (Hook.mkState nb (Hook.currentPlayer st) w' d' sc, thinking)).
  { rewrite commit_app. rewrite <- Hc. by destruct st. }
  rewrite app_assoc, commit_app, Hstep.
  destruct (truthy w' || d') eqn:Hended; cbn [negb andb app].
  - split; [done |]. intros _. done.
  - destruct (HookAi.mode env); [by split |].
    split; [| done].
    by destruct (player_eqb (other (Hook.currentPlayer st)) (HookAi.aiPlaysAs env)).
Qed.

Lemma updateOutcome_no_SetBoard (nextBoard b : board) :
  HookAi.SetBoard b ∉ (HookAi.updateOutcome nextBoard).1.
Proof.
  unfold HookAi.updateOutcome.
  destruct (Hook.computeWinner nextBoard); [| destruct (every_truthy nextBoard)];
    cbn [fst]; intros Hin;
    repeat (apply elem_of_cons in Hin as [Hin | Hin]; [discriminate |]);
    by apply elem_of_nil in Hin.
Qed.

Lemma commit_board_last c nb us :
  (forall b, HookAi.SetBoard b ∉ us) ->
  Hook.st_board (HookAi.commit c (HookAi.SetBoard nb :: us)).1 = nb.
Proof.
  intros Hno. unfold HookAi.commit. simpl.
  assert (Hgen : forall c',
    Hook.st_board (fold_left HookAi.commit1 us c').1 = Hook.st_board c'.1).
  { induction us as [|u us IH]; intros c'; [done |].
    simpl. rewrite IH by (intros b Hb; apply (Hno b); by right).
    destruct c' as [st t]. destruct u; try done.
    destruct (Hno b). by left. }
  rewrite Hgen. by destruct c.
Qed.

(** X21: in Human vs AI mode the reply is made by the [makeMove] of the
    render in which the human moved.  When the human's move on an empty
    cell [z] leaves the game open, that call starts a timer; when the
    timer fires, the cell the AI chose is marked with the human's mark
    on the board as it was before the human moved.  The board committed
    after the reply therefore lacks the human's mark at [z] and carries
    no new mark of the AI side; and unless that board ends the game,
    the reply starts a further timer from the same render. *)
Theorem timer_replies_on_stale_board env z thinking :
  let st := HookAi.state env in
  let b := Hook.st_board st in
  let human := Hook.currentPlayer st in
  let nextBoard := <[Z.to_nat z:=Some human]> b in
  length b = 9 ->
  Hook.winner st = None -> Hook.isDraw st = false ->
  (0 <= z <= 8)%Z -> read b (Z.to_nat z) = None ->
  HookAi.mode env = HookAi.HUMAN_VS_AI ->
  HookAi.aiPlaysAs env = other human ->
  game_over nextBoard = false ->
  let moved := HookAi.makeMove env (Hook.INum (Num z)) in
  let reply := HookAi.timer env nextBoard in
  let after :=
    HookAi.commit (HookAi.commit (st, thinking) moved.1.1.2) reply.1.1 in
  moved.1.1.1 = true /\ moved.2 = Some nextBoard /\
  exists idx,
    (Ai.chooseBestMove [nextBoard] (VArray 0) (HookAi.aiPlaysAs env)
       (HookAi.timerOpts (HookAi.difficulty env))).1 = Z.of_nat idx /\
    idx < 9 /\ idx ≠ Z.to_nat z /\
    Hook.st_board after.1 = <[idx:=Some human]> b /\
    read (Hook.st_board after.1) (Z.to_nat z) = None /\
    read (Hook.st_board after.1) idx = Some human /\
    count_mark (other human) (Hook.st_board after.1) =
      count_mark (other human) b /\
    (game_over (<[idx:=Some human]> b) = false ->
       reply.2 = Some (<[idx:=Some human]> b)).
Proof.
  cbv zeta. intros Hlen Hw Hd Hz Hcell Hmode Hai Hopen.
  set (st := HookAi.state env) in *. set (b := Hook.st_board st) in *.
  set (human := Hook.currentPlayer st) in *.
  set (nb := <[Z.to_nat z:=Some human]> b) in *.
  assert (Hzlt : Z.to_nat z < length b) by lia.
  (* what [makeMove] of this render does on an empty cell *)
  assert (Hmake : forall i, i < 9 -> read b i = None ->
    HookAi.makeMove env (Hook.INum (Num (Z.of_nat i))) =
    (true,
     [HookAi.SetBoard (<[i:=Some human]> b)] ++
     (HookAi.updateOutcome (<[i:=Some human]> b)).1 ++
     (if game_over (<[i:=Some human]> b) then []
      else [HookAi.SetCurrentPlayer (other human)]) ++
     (if negb (game_over (<[i:=Some human]> b)) then [HookAi.SetIsAiThinking true]
      else []),
     [Audit.mkEvent MOVE
        (Some (mkSnapshot b human (Hook.scores st)))
        (Some (mkSnapshot (<[i:=Some human]> b)
                 (if game_over (<[i:=Some human]> b) then human else other human)
                 (Hook.scores st)))
        (Some "anonymous"%string) None],
     if negb (game_over (<[i:=Some human]> b))
     then Some (<[i:=Some human]> b) else None)).
  { intros i Hi Hci. unfold HookAi.makeMove. fold st. rewrite Hw, Hd.
    cbn [truthy orb js_lt js_gt Hook.index_read Hook.index_set].
    destruct (Z.ltb_spec (Z.of_nat i) 0); [lia |].
    destruct (Z.ltb_spec 8 (Z.of_nat i)); [lia |].
    rewrite Nat2Z.id. fold b human. rewrite Hci. cbn [truthy orb].
    rewrite array_set_in_range by lia.
    assert (Hover : game_over (<[i:=Some human]> b) =
      truthy (HookAi.updateOutcome (<[i:=Some human]> b)).2.1
      || (HookAi.updateOutcome (<[i:=Some human]> b)).2.2).
    { unfold game_over, HookAi.updateOutcome.
      destruct (Hook.computeWinner _); [done |].
      by destruct (every_truthy _). }
    destruct (HookAi.updateOutcome (<[i:=Some human]> b)) as [ups [w d]].
    cbn [fst snd] in *. rewrite <- Hover, Hmode, Hai.
    destruct (game_over (<[i:=Some human]> b)); [done |].
    by rewrite player_eqb_refl. }
  assert (Hmoved := Hmake (Z.to_nat z) ltac:(lia) Hcell).
  rewrite Z2Nat.id in Hmoved by lia. fold nb in Hmoved.
  rewrite Hmoved, Hopen. cbn [fst snd negb].
  split; [done |]. split; [done |].
  (* the choice of the AI on the board after the human's move *)
  apply game_over_false in Hopen as [Hnw Hnf].
  destruct (every_truthy_false nb Hnf) as (i0 & Hi0 & Hc0).
  assert (Hlen' : length nb = 9) by (unfold nb; by rewrite length_insert).
  destruct (chooseBestMove_picks_empty [nb] 0 (HookAi.aiPlaysAs env)
              (HookAi.timerOpts (HookAi.difficulty env)))
    as (idx & Hidx & Hlt & Hempty); [done | | by right |].
  { exists i0. split; [lia | done]. }
  change (heap_read [nb] 0) with nb in Hempty.
  exists idx. split; [done |]. split; [done |].
  assert (Hne : idx ≠ Z.to_nat z).
  { intros ->. unfold nb in Hempty. by rewrite read_insert_eq in Hempty. }
  split; [done |].
  assert (Hcidx : read b idx = None).
  { unfold nb in Hempty. by rewrite read_insert_ne in Hempty. }
  unfold HookAi.timer. rewrite Hidx.
  destruct (Z.leb_spec 0 (Z.of_nat idx)); [| lia].
  rewrite (Hmake idx Hlt Hcidx). cbn [fst snd].
  assert (Hboard : forall c us,
    (forall b', HookAi.SetBoard b' ∉ us) ->
    Hook.st_board
      (HookAi.commit c ((HookAi.SetBoard (<[idx:=Some human]> b) :: us))).1
    = <[idx:=Some human]> b) by (intros; by apply commit_board_last).
  assert (Hafter : Hook.st_board
    (HookAi.commit
       (HookAi.commit (st, thinking)
          ([HookAi.SetBoard nb] ++ (HookAi.updateOutcome nb).1 ++
           [HookAi.SetCurrentPlayer (other human)] ++
           [HookAi.SetIsAiThinking true]))
       (([HookAi.SetBoard (<[idx:=Some human]> b)] ++
         (HookAi.updateOutcome (<[idx:=Some human]> b)).1 ++
         (if game_over (<[idx:=Some human]> b) then []
          else [HookAi.SetCurrentPlayer (other human)]) ++
         (if negb (game_over (<[idx:=Some human]> b))
          then [HookAi.SetIsAiThinking true] else [])) ++
        [HookAi.SetIsAiThinking false])).1 = <[idx:=Some human]> b).
  { apply Hboard. intros b' Hb'.
    rewrite !elem_of_app in Hb'.
    destruct Hb' as [[Hb' | [Hb' | Hb']] | Hb'].
    - by apply updateOutcome_no_SetBoard in Hb'.
    - destruct (game_over (<[idx:=Some human]> b));
        [by apply elem_of_nil in Hb' |].
      by apply list_elem_of_singleton in Hb'.
    - destruct (game_over (<[idx:=Some human]> b)); cbn [negb] in Hb';
        [by apply elem_of_nil in Hb' |].
      by apply list_elem_of_singleton in Hb'.
    - by apply list_elem_of_singleton in Hb'. }
  rewrite Hafter. split; [done |].
  split; [by rewrite read_insert_ne |].
  split; [by rewrite read_insert_eq by lia |].
  split.
  - apply count_mark_insert_other; [| apply not_eq_sym, other_neq].
    apply read_None_lookup; [lia | done].
  - intros Hopen'. by rewrite Hopen'.
Qed.

Lemma timer_replies_on_stale_board_witness :
  (HookAi.makeMove
     (HookAi.mkRender (Hook.initial (mkScores 0 0 0)) HookAi.HUMAN_VS_AI O
        (HookAi.mkDifficulty "quick" (Some (Num 9))))
     (Hook.INum (Num 4))).2
  = Some (<[4:=Some X]> empty_board).
Proof.
  destruct (timer_replies_on_stale_board
    (HookAi.mkRender (Hook.initial (mkScores 0 0 0)) HookAi.HUMAN_VS_AI O
       (HookAi.mkDifficulty "quick" (Some (Num 9)))) 4%Z false)
    as (_ & Hsched & _);
    [reflexivity | reflexivity | reflexivity | lia | reflexivity
    | reflexivity | reflexivity | reflexivity | exact Hsched].
Defined.
